(** * A shallow embedding of the size-class allocator of [allocator.c]

    The allocator keeps eight intrusive free lists (block sizes 16 .. 2048),
    carves one page at a time into equal blocks, stamps a header at the start
    of every carved page and maps large requests directly.

    The embedding follows the C source function by function:
    - machine integers are [Z] with the wrap-around written out;
    - memory is a byte map (an unmapped byte makes a load or a store fault);
    - the global table [lists] is a list updated by index;
    - the operating system (mmap, write to stderr) is an environment that
      says what each call answers, and every call is logged in a trace;
    - a call either returns, exits the process, faults or loops for ever. *)

From Stdlib Require Import ZArith Lia Bool String Ascii.
From stdpp Require Import base list.

Open Scope Z_scope.

(** ** Machine integers *)

Definition wrap64 (z : Z) : Z := z mod 2 ^ 64.

(** Conversion to [int] (32 bits, two's complement). *)
Definition to_int32 (z : Z) : Z :=
  let r := z mod 2 ^ 32 in if r <? 2 ^ 31 then r else r - 2 ^ 32.

(** Conversion to [intptr_t] (64 bits, two's complement). *)
Definition to_intptr (z : Z) : Z :=
  let r := z mod 2 ^ 64 in if r <? 2 ^ 63 then r else r - 2 ^ 64.

(** ** Constants and macros of the source *)

Definition MIN_MALLOC_SIZE : Z := 16.
Definition PAGE_SIZE : Z := 4096.
Definition MAGIC : Z := 12073110.

(** [(void* )-1] *)
Definition MAP_FAILED : Z := 2 ^ 64 - 1.

(** [#define ROUND_UP(x, y) ((x) % (y) == 0 ? (x) : (x) + ((y) - (x) % (y)))]
    on [size_t] operands. *)
Definition ROUND_UP (x y : Z) : Z :=
  if x mod y =? 0 then x else wrap64 (x + wrap64 (y - x mod y)).

(** Layout of [header_t] on an LP64 target: [int magic] at offset 0,
    [size_t size] at offset 8.  [node_t] is one pointer at offset 0. *)
Definition OFF_MAGIC : Z := 0.
Definition OFF_SIZE : Z := 8.

(** ** Byte-addressed memory *)

Module Mem.

(** [m a = None] when the byte at [a] is not mapped. *)
Definition t := Z -> option Z.

Definition empty : t := fun _ => None.

Definition in_range (a n x : Z) : bool := (a <=? x) && (x <? a + n).

Definition byte_of (v k : Z) : Z := (v / 256 ^ k) mod 256.

(** Little-endian store of the [n] low bytes of [v] at [a]. *)
Definition write (m : t) (a : Z) (n : nat) (v : Z) : t :=
  fun x => if in_range a (Z.of_nat n) x then Some (byte_of v (x - a)) else m x.

(** Little-endian load of [n] bytes at [a]; [None] if one is unmapped. *)
Fixpoint load (m : t) (a : Z) (n : nat) : option Z :=
  match n with
  | O => Some 0
  | S k =>
      match m a, load m (a + 1) k with
      | Some b, Some r => Some (b + 256 * r)
      | _, _ => None
      end
  end.

Definition mapped (m : t) (a : Z) (n : nat) : bool :=
  match load m a n with Some _ => true | None => false end.

(** A store faults ([None]) when it touches an unmapped byte. *)
Definition store (m : t) (a : Z) (n : nat) (v : Z) : option t :=
  if mapped m a n then Some (write m a n v) else None.

(** An anonymous mapping of [len] bytes at [a]: the bytes become mapped and
    read as zero. *)
Definition map_zero (m : t) (a len : Z) : t :=
  fun x => if in_range a len x then Some 0 else m x.

(** [m'] agrees with [m] wherever [m] is mapped. *)
Definition extends (m m' : t) : Prop := forall x, m x <> None -> m' x = m x.

(** A region none of whose bytes is mapped. *)
Definition fresh (m : t) (a len : Z) : Prop :=
  forall x, a <= x < a + len -> m x = None.

End Mem.

(** ** Program state, environment and outcomes *)

Inductive event : Type :=
| EvMmap (len : Z) (res : option Z)
| EvWrite (msg : string) (ok : bool).

(** [lists] is the global table, [heap] the memory, [trace] the system calls
    made so far, most recent first. *)
Record state : Type := mkState {
  lists : list Z;
  heap : Mem.t;
  trace : list event
}.

(** What the operating system answers during one call: the address given by
    [mmap] ([None] for [MAP_FAILED]) and whether writing to stderr works. *)
Record env : Type := mkEnv {
  mmap_result : option Z;
  stderr_ok : bool
}.

Inductive outcome (A : Type) : Type :=
| Ret (a : A) (s : state)
| Exit (status : Z) (s : state)
| Fault
| Diverge.

Arguments Ret {A} a s.
Arguments Exit {A} status s.
Arguments Fault {A}.
Arguments Diverge {A}.

Definition M (A : Type) : Type := state -> outcome A.

Definition ret {A} (a : A) : M A := fun s => Ret a s.

Definition bind {A B} (c : M A) (k : A -> M B) : M B :=
  fun s =>
    match c s with
    | Ret a s' => k a s'
    | Exit n s' => Exit n s'
    | Fault => Fault
    | Diverge => Diverge
    end.

Declare Scope alloc_scope.
Delimit Scope alloc_scope with alloc.
Notation "x <- c ;; k" := (bind c (fun x => k))
  (at level 90, c at next level, right associativity) : alloc_scope.
Notation "c ;;; k" := (bind c (fun _ => k))
  (at level 90, right associativity) : alloc_scope.
Open Scope alloc_scope.

Definition exit {A} (status : Z) : M A := fun s => Exit status s.

(** A loop that ran out of its (sufficient) fuel never ends. *)
Definition terminating {A} (o : option A) : M A :=
  fun s => match o with Some a => Ret a s | None => Diverge end.

Definition load_mem (a : Z) (n : nat) : M Z :=
  fun s => match Mem.load (heap s) a n with
           | Some v => Ret v s
           | None => Fault
           end.

Definition store_mem (a : Z) (n : nat) (v : Z) : M unit :=
  fun s => match Mem.store (heap s) a n v with
           | Some m => Ret tt (mkState (lists s) m (trace s))
           | None => Fault
           end.

(** Pointer-sized and [int]-sized accesses. *)
Definition load64 (a : Z) : M Z := load_mem a 8.
Definition store64 (a v : Z) : M unit := store_mem a 8 v.
Definition load_int (a : Z) : M Z := v <- load_mem a 4 ;; ret (to_int32 v).
Definition store_int (a v : Z) : M unit := store_mem a 4 v.

(** [lists[i]] read and written; the table has eight entries and an index
    outside it is undefined behaviour. *)
Definition read_list (i : Z) : M Z :=
  fun s =>
    if i <? 0 then Fault
    else match lists s !! Z.to_nat i with
         | Some v => Ret v s
         | None => Fault
         end.

Definition write_list (i v : Z) : M unit :=
  fun s =>
    if i <? 0 then Fault
    else match lists s !! Z.to_nat i with
         | Some _ => Ret tt (mkState (<[Z.to_nat i := v]> (lists s)) (heap s) (trace s))
         | None => Fault
         end.

(** [mmap(NULL, len, PROT_READ | PROT_WRITE, MAP_ANONYMOUS | MAP_PRIVATE, -1, 0)];
    a request of length 0 is refused by the system (EINVAL). *)
Definition mmap (e : env) (len : Z) : M Z :=
  fun s =>
    match (if len =? 0 then None else mmap_result e) with
    | Some p =>
        Ret p (mkState (lists s) (Mem.map_zero (heap s) p len)
                       (EvMmap len (Some p) :: trace s))
    | None => Ret MAP_FAILED (mkState (lists s) (heap s) (EvMmap len None :: trace s))
    end.

Definition nl : string := String (ascii_of_nat 10) EmptyString.
Definition nul : string := String (ascii_of_nat 0) EmptyString.

(** [log_message]: one write to stderr; when it fails, a second message is
    written and the process exits with status 2. *)
Definition fail_msg : string := ("logging failed" ++ nl ++ nul)%string.

Definition logged (e : env) (message : string) : list event :=
  if stderr_ok e then [EvWrite message true]
  else [EvWrite fail_msg false; EvWrite message false].

Definition log_message (e : env) (message : string) : M unit :=
  fun s =>
    let s' := mkState (lists s) (heap s) (logged e message ++ trace s) in
    if stderr_ok e then Ret tt s' else Exit 2 s'.

(** ** [round_power_2] *)

(** The [while (accum < x)] loop; [None] when the fuel runs out. *)
Fixpoint round_power_2_loop (fuel : nat) (accum i x : Z) : option Z :=
  match fuel with
  | O => None
  | S f =>
      if accum <? x then round_power_2_loop f (wrap64 (accum * 2)) (wrap64 (i + 1)) x
      else Some (wrap64 (i + 4))
  end.

(** After 64 doublings [accum] has wrapped to 0 and stays there, so 64 rounds
    settle whether the loop ends. *)
Definition round_power_2 (x : Z) : option Z := round_power_2_loop 64 16 0 x.

(** ** [xxmalloc_usable_size] *)

(** [cast_ptr - (cast_ptr % PAGE_SIZE)] on [intptr_t], cast back to a pointer. *)
Definition page_of (ptr : Z) : Z :=
  let cast_ptr := to_intptr ptr in
  wrap64 (cast_ptr - Z.rem cast_ptr PAGE_SIZE).

Definition xxmalloc_usable_size (ptr : Z) : M Z :=
  if ptr =? 0 then ret 0
  else
    let page := page_of ptr in
    magic <- load_int (page + OFF_MAGIC) ;;
    if negb (magic =? MAGIC) then ret 0
    else load64 (page + OFF_SIZE).

(** ** [xxmalloc] *)

(** The body of [for (int i = 1; i < n; i++)], [k] iterations from [i]. *)
Fixpoint carve_loop (k : nat) (i n block_size p : Z) : M unit :=
  match k with
  | O => ret tt
  | S k' =>
      let p2 := wrap64 (wrap64 (i * block_size) + p) in
      store64 p2 (wrap64 (p2 + block_size)) ;;;
      (if i =? n - 1 then store64 p2 0 else ret tt) ;;;
      carve_loop k' (i + 1) n block_size p
  end.

(** The [if (list == NULL) { ... }] block once [mmap] has succeeded. *)
Definition carve_page (idx block_size p : Z) : M unit :=
  let n := to_int32 (PAGE_SIZE / block_size) in
  carve_loop (Z.to_nat (n - 1)) 1 n block_size p ;;;
  store_int (p + OFF_MAGIC) MAGIC ;;;
  store64 (p + OFF_SIZE) block_size ;;;
  write_list idx (wrap64 (p + block_size)).

Definition refill (e : env) (idx block_size : Z) : M unit :=
  p <- mmap e PAGE_SIZE ;;
  if p =? MAP_FAILED then
    log_message e ("mmap failed" ++ nl)%string ;;; exit 2
  else carve_page idx block_size p.

(** The last lines of [xxmalloc]: take the first element off the list. *)
Definition pop (idx : Z) : M Z :=
  list <- read_list idx ;;
  next <- load64 list ;;
  write_list idx next ;;;
  ret list.

Definition xxmalloc (e : env) (size : Z) : M Z :=
  if 2048 <? size then
    let size := ROUND_UP size PAGE_SIZE in
    p <- mmap e size ;;
    if p =? MAP_FAILED then
      log_message e ("mmap failed! Giving up." ++ nl)%string ;;; exit 2
    else ret p
  else
    list_index <- terminating (round_power_2 size) ;;
    let idx := wrap64 (list_index - 4) in
    list <- read_list idx ;;
    let block_size := wrap64 (to_int32 (Z.shiftl 1 list_index)) in
    (if list =? 0 then refill e idx block_size else ret tt) ;;;
    pop idx.

(** ** [xxfree] *)

(** [while (start != 16) { start = start >> 1; accum += 1; }] *)
Fixpoint halve_loop (fuel : nat) (start accum : Z) : option Z :=
  match fuel with
  | O => None
  | S f =>
      if negb (start =? 16) then halve_loop f (Z.shiftr start 1) (to_int32 (accum + 1))
      else Some accum
  end.

(** An [int] shifted right 32 times is 0 or -1 and stays there, so 32 rounds
    settle whether the loop ends. *)
Definition class_of_size (block_size : Z) : option Z :=
  halve_loop 32 (to_int32 block_size) 0.

Definition xxfree (ptr : Z) : M unit :=
  if ptr =? 0 then ret tt
  else
    let page := page_of ptr in
    magic <- load_int (page + OFF_MAGIC) ;;
    if negb (magic =? MAGIC) then ret tt
    else
      block_size <- xxmalloc_usable_size ptr ;;
      if block_size =? 0 then ret tt
      else
        accum <- terminating (class_of_size block_size) ;;
        let uptr := wrap64 (to_intptr ptr) in
        let p := wrap64 (uptr - uptr mod block_size) in
        cur <- read_list accum ;;
        write_list accum p ;;;
        store64 p cur.

(** The table at process start: [void* lists[8] = {NULL}], nothing mapped. *)
Definition init : state := mkState (replicate 8 0) Mem.empty [].

Definition env_ok (p : Z) : env := mkEnv (Some p) true.
Definition env_fail : env := mkEnv None true.

Definition result_of {A} (o : outcome A) : option A :=
  match o with Ret a _ => Some a | _ => None end.

Definition state_of {A} (o : outcome A) : option state :=
  match o with Ret _ s => Some s | Exit _ s => Some s | _ => None end.

(** ** Auxiliary definitions for the statements *)

(** The page containing [a]. *)
Definition page_start (a : Z) : Z := a - a mod PAGE_SIZE.

(** Block size of class [i]: [16 << i]. *)
Definition class_size (i : Z) : Z := 2 ^ (i + 4).

Definition class_sizes : list Z := [16; 32; 64; 128; 256; 512; 1024; 2048].

(** The lengths asked of [mmap], most recent first. *)
Fixpoint mmap_requests (tr : list event) : list Z :=
  match tr with
  | [] => []
  | EvMmap len _ :: tr' => len :: mmap_requests tr'
  | EvWrite _ _ :: tr' => mmap_requests tr'
  end.

Definition failure_message (size : Z) : string :=
  if 2048 <? size then ("mmap failed! Giving up." ++ nl)%string
  else ("mmap failed" ++ nl)%string.

(** The length [xxmalloc] asks of [mmap] when it needs memory. *)
Definition request_len (size : Z) : Z :=
  if 2048 <? size then ROUND_UP size PAGE_SIZE else PAGE_SIZE.

(** [b] is a node of the free list that starts at [h]: the head itself, or
    the [next] field of a node of the list, as long as it is not [NULL]. *)
Inductive reach (m : Mem.t) (h : Z) : Z -> Prop :=
| reach_head : h <> 0 -> reach m h h
| reach_next a b :
    reach m h a -> Mem.load m a 8 = Some b -> b <> 0 -> reach m h b.

(** The nodes of the free list that starts at [h], in order; [None] when a
    node cannot be read or the list is longer than [fuel]. *)
Fixpoint walk (fuel : nat) (m : Mem.t) (h : Z) : option (list Z) :=
  match fuel with
  | O => if h =? 0 then Some [] else None
  | S f =>
      if h =? 0 then Some []
      else match Mem.load m h 8 with
           | Some nx => option_map (cons h) (walk f m nx)
           | None => None
           end
  end.

(** The page at [pg] starts with a header: the tag and block size [bs]. *)
Definition tagged (m : Mem.t) (pg bs : Z) : Prop :=
  option_map to_int32 (Mem.load m (pg + OFF_MAGIC) 4) = Some MAGIC /\
  Mem.load m (pg + OFF_SIZE) 8 = Some bs.

(** What [mmap] promises about the address it returns for [len] bytes: a
    page-aligned user-space region that was not mapped before. *)
Definition valid_mmap (m : Mem.t) (len : Z) (res : option Z) : Prop :=
  match res with
  | None => True
  | Some p =>
      0 < p /\ p mod PAGE_SIZE = 0 /\ p + len <= 2 ^ 63 /\ Mem.fresh m p len
  end.

(** [xxmalloc] has to ask for memory: a large request, or a small one whose
    free list is empty. *)
Definition needs_page (size : Z) (s : state) : Prop :=
  2048 < size \/
  exists k, 0 <= k <= 7 /\ round_power_2 size = Some (k + 4) /\
            lists s !! Z.to_nat k = Some 0.

(** A pointer the allocator does not recognise: [NULL], or a pointer into a
    readable page that does not start with the tag. *)
Definition foreign (s : state) (ptr : Z) : Prop :=
  ptr = 0 \/
  exists v, Mem.load (heap s) (page_of ptr + OFF_MAGIC) 4 = Some v /\
            to_int32 v <> MAGIC.

(** The length the call asks of the page source is the least multiple of the
    page size that is at least [size]. *)
Definition passes_least_multiple (e : env) (size : Z) (s : state) : Prop :=
  exists s' len,
    state_of (xxmalloc e size s) = Some s' /\
    mmap_requests (trace s') = len :: mmap_requests (trace s) /\
    len mod PAGE_SIZE = 0 /\ size <= len /\
    forall len', len' mod PAGE_SIZE = 0 -> size <= len' -> len <= len'.

(** ** The invariant of the free lists *)

(** A free-list node [a] of class [i]: a user-space address, aligned to the
    block size, readable, in a page whose header carries the tag and the
    block size of the class. *)
Record node_ok (m : Mem.t) (i a : Z) : Prop := mkNodeOk {
  node_range : 0 < a < 2 ^ 63;
  node_aligned : a mod class_size i = 0;
  node_mapped : Mem.mapped m a 8 = true;
  node_tagged : tagged m (page_start a) (class_size i)
}.

(** The table and the page headers agree: every node reachable from
    [lists[i]] lies in a page tagged with block size [2^(i+4)]. *)
Definition tables_agree (s : state) : Prop :=
  forall (i : nat) h a,
    lists s !! i = Some h -> reach (heap s) h a ->
    tagged (heap s) (page_start a) (class_size (Z.of_nat i)).

(** The inductive form of the invariant: eight lists whose nodes are all
    well-formed. *)
Definition Inv (s : state) : Prop :=
  length (lists s) = 8%nat /\
  forall (i : nat) h a,
    lists s !! i = Some h -> reach (heap s) h a ->
    node_ok (heap s) (Z.of_nat i) a.

(** The request can be served: when memory has to be asked for, [mmap]
    gives some. *)
Definition served (e : env) (size : Z) (s : state) : Prop :=
  needs_page size s -> mmap_result e <> None.

(** [ptr] points into a block, other than the header block, of a page that
    was carved for a size class. *)
Definition carved_block (s : state) (ptr : Z) : Prop :=
  exists k, 0 <= k <= 7 /\
    tagged (heap s) (page_start ptr) (class_size k) /\
    class_size k <= ptr mod PAGE_SIZE.

(** The pointers [xxfree] is meant for. *)
Definition releasable (s : state) (ptr : Z) : Prop :=
  foreign s ptr \/ carved_block s ptr.

(** [usable_size] of the block returned for a request of [size] bytes covers
    the request and is a multiple of the page size. *)
Definition usable_covers_request (e : env) (size : Z) (s : state) : Prop :=
  exists r s' u s'',
    xxmalloc e size s = Ret r s' /\
    xxmalloc_usable_size r s' = Ret u s'' /\
    size <= u /\ u mod PAGE_SIZE = 0.

(** [bs] is the least power of two that is at least [max size 16]. *)
Definition least_class (size bs : Z) : Prop :=
  (exists j, 0 <= j /\ bs = 2 ^ j) /\
  Z.max size 16 <= bs /\
  forall j, 0 <= j -> Z.max size 16 <= 2 ^ j -> bs <= 2 ^ j.

(** The block [r] handed out for class [k] was the head of [lists[k]]: the
    head already there, or block 1 of the page just carved. *)
Definition drawn_from_class (e : env) (s : state) (k r : Z) : Prop :=
  (r <> 0 /\ lists s !! Z.to_nat k = Some r) \/
  (lists s !! Z.to_nat k = Some 0 /\
   exists p, mmap_result e = Some p /\ r = p + class_size k).

(** Alignment promised for the block [r] returned for a request of [size]
    bytes: the page size for a large request, the block size of its class for
    a small one. *)
Definition aligned_for (size r : Z) : Prop :=
  if 2048 <? size then r mod PAGE_SIZE = 0
  else exists k, 0 <= k <= 7 /\ round_power_2 size = Some (k + 4) /\
                 r mod class_size k = 0.

(** The state a call leaves behind ([init] when it faults or loops). *)
Definition after {A} (o : outcome A) : state :=
  match o with
  | Ret _ s => s
  | Exit _ s => s
  | _ => init
  end.

(** ** Callers and the message buffer *)

(** [cnt] requests of [size] bytes in a row; the addresses returned. *)
Fixpoint xxmalloc_seq (e : env) (size : Z) (cnt : nat) : M (list Z) :=
  match cnt with
  | O => ret []
  | S c =>
      r <- xxmalloc e size ;;
      rs <- xxmalloc_seq e size c ;;
      ret (r :: rs)
  end.

Definition NUL : ascii := ascii_of_nat 0.

(** [while (message[len] != '\0') len++] on the buffer [message]; reading
    past the end of the buffer is undefined ([None]). *)
Fixpoint message_length (fuel : nat) (message : list ascii) (len : nat) : option nat :=
  match fuel with
  | O => None
  | S f =>
      match message !! len with
      | None => None
      | Some c => if Ascii.eqb c NUL then Some len else message_length f message (S len)
      end
  end.

(** [log_message] on the character buffer it is given: the length is
    counted up to the terminator, then that many characters are written. *)
Definition log_message_buffer (e : env) (message : list ascii) : M unit :=
  match message_length (S (length message)) message 0 with
  | None => fun _ => Fault
  | Some len => log_message e (string_of_list_ascii (take len message))
  end.

(** No node of a free list lies in the header block of its page. *)
Definition past_header (s : state) : Prop :=
  forall (i : nat) h a,
    lists s !! i = Some h -> reach (heap s) h a ->
    class_size (Z.of_nat i) <= a mod PAGE_SIZE.
(** ** Lemmas on machine integers *)

Lemma wrap64_small z : 0 <= z < 2 ^ 64 -> wrap64 z = z.
Proof. intros H. unfold wrap64. now apply Z.mod_small. Qed.

Lemma wrap64_range z : 0 <= wrap64 z < 2 ^ 64.
Proof. unfold wrap64. apply Z.mod_pos_bound. lia. Qed.

Lemma to_int32_small z : 0 <= z < 2 ^ 31 -> to_int32 z = z.
Proof.
  intros H. unfold to_int32. rewrite Z.mod_small by lia.
  destruct (Z.ltb_spec z (2 ^ 31)); lia.
Qed.

Lemma to_int32_eq_small z c :
  0 <= z < 2 ^ 32 -> 0 <= c < 2 ^ 31 -> to_int32 z = c -> z = c.
Proof.
  intros Hz Hc. unfold to_int32. rewrite Z.mod_small by lia.
  destruct (Z.ltb_spec z (2 ^ 31)); lia.
Qed.

Lemma to_intptr_small z : 0 <= z < 2 ^ 63 -> to_intptr z = z.
Proof.
  intros H. unfold to_intptr. rewrite Z.mod_small by lia.
  destruct (Z.ltb_spec z (2 ^ 63)); lia.
Qed.

Lemma wrap64_to_intptr z : 0 <= z < 2 ^ 64 -> wrap64 (to_intptr z) = z.
Proof.
  intros H. unfold to_intptr, wrap64. rewrite (Z.mod_small z) by lia.
  destruct (Z.ltb_spec z (2 ^ 63)).
  - apply Z.mod_small; lia.
  - replace (z - 2 ^ 64) with (z + (-1) * 2 ^ 64) by ring.
    rewrite Z.mod_add by lia. apply Z.mod_small; lia.
Qed.

Lemma page_of_user ptr : 0 <= ptr < 2 ^ 63 -> page_of ptr = page_start ptr.
Proof.
  intros H. unfold page_of, page_start, PAGE_SIZE.
  rewrite to_intptr_small by lia.
  rewrite Z.rem_mod_nonneg by lia.
  apply wrap64_small. Z.div_mod_to_equations. lia.
Qed.

Lemma page_start_bounds a : page_start a <= a < page_start a + PAGE_SIZE.
Proof.
  unfold page_start, PAGE_SIZE. pose proof (Z.mod_pos_bound a 4096). lia.
Qed.

Lemma page_start_aligned a : page_start a mod PAGE_SIZE = 0.
Proof.
  unfold page_start, PAGE_SIZE.
  rewrite (Z.div_mod a 4096) at 1 by lia.
  replace (4096 * (a / 4096) + a mod 4096 - a mod 4096) with ((a / 4096) * 4096) by ring.
  apply Z.mod_mul. lia.
Qed.

Lemma page_start_in_page p a :
  p mod PAGE_SIZE = 0 -> p <= a < p + PAGE_SIZE -> page_start a = p.
Proof.
  unfold page_start, PAGE_SIZE. intros Hp Ha.
  apply Z.mod_divide in Hp; [|lia]. destruct Hp as [q ->].
  replace a with ((a - q * 4096) + q * 4096) at 2 by ring.
  rewrite Z.mod_add by lia. rewrite Z.mod_small by lia. ring.
Qed.

(** ** Lemmas on memory *)

Module MemFacts.
Import Mem.

Lemma in_range_true a n x : in_range a n x = true <-> a <= x < a + n.
Proof. unfold in_range. rewrite andb_true_iff, Z.leb_le, Z.ltb_lt. tauto. Qed.

Lemma in_range_false a n x : in_range a n x = false <-> (x < a \/ a + n <= x).
Proof.
  unfold in_range. rewrite andb_false_iff, Z.leb_gt, Z.ltb_ge. tauto.
Qed.

(** A load only looks at the bytes of its range. *)
Lemma load_ext m1 m2 n : forall a,
  (forall x, a <= x < a + Z.of_nat n -> m1 x = m2 x) ->
  load m1 a n = load m2 a n.
Proof.
  induction n as [|n IH]; intros a H; simpl; [reflexivity|].
  rewrite (H a) by lia. rewrite (IH (a + 1)); [reflexivity|].
  intros x Hx. apply H. lia.
Qed.

Lemma load_mapped m n : forall a v,
  load m a n = Some v -> forall x, a <= x < a + Z.of_nat n -> m x <> None.
Proof.
  induction n as [|n IH]; intros a v H x Hx; [lia|].
  simpl in H. destruct (m a) as [b|] eqn:Ea; [|discriminate].
  destruct (load m (a + 1) n) as [r|] eqn:El; [|discriminate].
  destruct (Z.eq_dec x a) as [->|Hne]; [congruence|].
  apply (IH _ _ El). lia.
Qed.

Lemma mapped_load m n : forall a,
  (forall x, a <= x < a + Z.of_nat n -> m x <> None) ->
  exists v, load m a n = Some v.
Proof.
  induction n as [|n IH]; intros a H; simpl; [eauto|].
  destruct (m a) as [b|] eqn:Ea; [|exfalso; apply (H a); [lia|assumption]].
  destruct (IH (a + 1)) as [r Hr]; [intros x Hx; apply H; lia|].
  rewrite Hr. eauto.
Qed.

Lemma mapped_true m a n :
  mapped m a n = true <-> (forall x, a <= x < a + Z.of_nat n -> m x <> None).
Proof.
  unfold mapped. split.
  - destruct (load m a n) eqn:E; [|discriminate]. intros _. eapply load_mapped; eauto.
  - intros H. destruct (mapped_load m n a H) as [v ->]. reflexivity.
Qed.

Lemma byte_of_shift v k : 0 <= k -> byte_of (v / 256) k = byte_of v (k + 1).
Proof.
  intros Hk. unfold byte_of. rewrite Z.pow_add_r by lia.
  rewrite Z.pow_1_r, Z.mul_comm, Z.div_div by lia. reflexivity.
Qed.

(** Bytes that spell [v] in little-endian order load as [v]. *)
Lemma load_bytes m n : forall a v,
  0 <= v < 256 ^ Z.of_nat n ->
  (forall j, 0 <= j < Z.of_nat n -> m (a + j) = Some (byte_of v j)) ->
  load m a n = Some v.
Proof.
  induction n as [|n IH]; intros a v Hv H.
  - simpl in *. f_equal. lia.
  - rewrite Nat2Z.inj_succ, Z.pow_succ_r in Hv by lia.
    simpl. replace a with (a + 0) at 1 by ring. rewrite (H 0) by lia.
    rewrite (IH (a + 1) (v / 256)).
    + f_equal. unfold byte_of. rewrite Z.pow_0_r, Z.div_1_r.
      pose proof (Z.div_mod v 256). lia.
    + split; [apply Z.div_pos; lia|].
      apply Z.div_lt_upper_bound; lia.
    + intros j Hj. rewrite byte_of_shift by lia.
      replace (a + 1 + j) with (a + (j + 1)) by ring. apply H. lia.
Qed.

Lemma load_write_same m a n v :
  0 <= v < 256 ^ Z.of_nat n -> load (write m a n v) a n = Some v.
Proof.
  intros Hv. apply load_bytes; [assumption|].
  intros j Hj. unfold write.
  replace (in_range a (Z.of_nat n) (a + j)) with true
    by (symmetry; apply in_range_true; lia).
  do 2 f_equal. ring.
Qed.

Lemma load_write_other m a n v b k :
  b + Z.of_nat k <= a \/ a + Z.of_nat n <= b ->
  load (write m a n v) b k = load m b k.
Proof.
  intros H. apply load_ext. intros x Hx. unfold write.
  replace (in_range a (Z.of_nat n) x) with false; [reflexivity|].
  symmetry. apply in_range_false. lia.
Qed.

Lemma load_zero m n : forall a,
  (forall x, a <= x < a + Z.of_nat n -> m x = Some 0) -> load m a n = Some 0.
Proof.
  intros a H. apply load_bytes.
  - split; [lia|]. apply Z.pow_pos_nonneg; lia.
  - intros j Hj. rewrite H by lia. unfold byte_of.
    rewrite Z.div_0_l; [reflexivity|]. apply Z.pow_nonzero; lia.
Qed.

Lemma extends_refl m : extends m m.
Proof. intros x _. reflexivity. Qed.

Lemma extends_load m m' a n v :
  extends m m' -> load m a n = Some v -> load m' a n = Some v.
Proof.
  intros He Hl. rewrite <- Hl. apply load_ext.
  intros x Hx. apply He. eapply load_mapped; eauto.
Qed.

Lemma extends_mapped m m' a n :
  extends m m' -> mapped m a n = true -> mapped m' a n = true.
Proof.
  unfold mapped. intros He. destruct (load m a n) eqn:E; [|discriminate].
  rewrite (extends_load _ _ _ _ _ He E). reflexivity.
Qed.

Lemma extends_map_zero m a len : fresh m a len -> extends m (map_zero m a len).
Proof.
  intros Hf x Hx. unfold map_zero.
  destruct (in_range a len x) eqn:E; [|reflexivity].
  apply in_range_true in E. specialize (Hf x E). congruence.
Qed.

Lemma map_zero_inside m a len x : a <= x < a + len -> map_zero m a len x = Some 0.
Proof.
  intros H. unfold map_zero.
  replace (in_range a len x) with true by (symmetry; apply in_range_true; lia).
  reflexivity.
Qed.

Lemma map_zero_outside m a len x : x < a \/ a + len <= x -> map_zero m a len x = m x.
Proof.
  intros H. unfold map_zero.
  replace (in_range a len x) with false by (symmetry; apply in_range_false; lia).
  reflexivity.
Qed.

Lemma write_inside_mapped m a n v x :
  a <= x < a + Z.of_nat n -> write m a n v x <> None.
Proof.
  intros H. unfold write.
  replace (in_range a (Z.of_nat n) x) with true by (symmetry; apply in_range_true; lia).
  discriminate.
Qed.

Lemma write_outside m a n v x :
  x < a \/ a + Z.of_nat n <= x -> write m a n v x = m x.
Proof.
  intros H. unfold write.
  replace (in_range a (Z.of_nat n) x) with false by (symmetry; apply in_range_false; lia).
  reflexivity.
Qed.

(** A store changes no byte outside its range and unmaps nothing. *)
Lemma store_spec m a n v m' :
  store m a n v = Some m' ->
  m' = write m a n v /\ mapped m a n = true.
Proof.
  unfold store. destruct (mapped m a n); [|discriminate].
  intros [= <-]. auto.
Qed.

Lemma store_keeps_mapped m a n v m' x :
  store m a n v = Some m' -> (m' x <> None <-> m x <> None).
Proof.
  intros H. apply store_spec in H. destruct H as [-> Hm].
  rewrite mapped_true in Hm.
  destruct (in_range a (Z.of_nat n) x) eqn:E.
  - apply in_range_true in E. split; intros _.
    + apply Hm. assumption.
    + apply write_inside_mapped. assumption.
  - apply in_range_false in E. rewrite write_outside by lia. tauto.
Qed.

Lemma store_mapped_total m a n v :
  mapped m a n = true -> store m a n v = Some (write m a n v).
Proof. intros H. unfold store. rewrite H. reflexivity. Qed.

End MemFacts.

Arguments Mem.load : simpl never.
Arguments Mem.write : simpl never.
Arguments Mem.map_zero : simpl never.
Arguments wrap64 : simpl never.
Arguments to_int32 : simpl never.

(** ** Size classes *)

Lemma class_size_cases i :
  0 <= i <= 7 -> i = 0 \/ i = 1 \/ i = 2 \/ i = 3 \/ i = 4 \/ i = 5 \/ i = 6 \/ i = 7.
Proof. lia. Qed.

Ltac class_cases H :=
  apply class_size_cases in H;
  destruct H as [->|[->|[->|[->|[->|[->|[->| ->]]]]]]].

Lemma class_size_bounds i : 0 <= i <= 7 -> 16 <= class_size i <= 2048.
Proof. intros H. class_cases H; vm_compute; split; discriminate. Qed.

Lemma class_size_divides_page i :
  0 <= i <= 7 -> PAGE_SIZE mod class_size i = 0.
Proof. intros H. class_cases H; reflexivity. Qed.

Lemma class_size_16 i : 0 <= i <= 7 -> class_size i mod 16 = 0.
Proof. intros H. class_cases H; reflexivity. Qed.

Lemma class_size_inj i j :
  0 <= i <= 7 -> 0 <= j <= 7 -> class_size i = class_size j -> i = j.
Proof.
  intros Hi Hj H. unfold class_size in H.
  apply Z.pow_inj_r in H; lia.
Qed.

(** *** [round_power_2] *)

Lemma round_power_2_loop_spec fuel : forall i x,
  0 <= i <= 59 -> x <= 2 ^ 63 ->
  60 <= Z.of_nat fuel + i ->
  (i = 0 \/ 2 ^ (i + 3) < x) ->
  exists k, i <= k <= 59 /\
    round_power_2_loop fuel (2 ^ (i + 4)) i x = Some (k + 4) /\
    (k = 0 \/ 2 ^ (k + 3) < x) /\ x <= 2 ^ (k + 4).
Proof.
  induction fuel as [|f IH]; intros i x Hi Hx Hf Hlow; [lia|].
  simpl. destruct (Z.ltb_spec (2 ^ (i + 4)) x) as [Hlt|Hge].
  - assert (i + 4 < 63) as Hi'.
    { apply (Z.pow_lt_mono_r_iff 2); lia. }
    assert (wrap64 (2 ^ (i + 4) * 2) = 2 ^ (i + 1 + 4)) as ->.
    { replace (i + 1 + 4) with (Z.succ (i + 4)) by lia.
      rewrite Z.pow_succ_r, (Z.mul_comm 2) by lia.
      apply wrap64_small.
      assert (2 ^ (i + 4) <= 2 ^ 62) by (apply Z.pow_le_mono_r; lia).
      assert (0 < 2 ^ (i + 4)) by (apply Z.pow_pos_nonneg; lia). lia. }
    rewrite wrap64_small by lia.
    destruct (IH (i + 1) x) as (k & Hk & Hr & Hk1 & Hk2); try lia.
    { right. replace (i + 1 + 3) with (i + 4) by ring. assumption. }
    exists k. repeat split; try lia; assumption.
  - exists i. rewrite wrap64_small by lia. repeat split; try lia; assumption.
Qed.

(** [round_power_2] returns for every [x <= 2^63], with the exponent of the
    least power of two that is at least [max x 16]. *)
Lemma round_power_2_spec x :
  x <= 2 ^ 63 ->
  exists k, 0 <= k <= 59 /\ round_power_2 x = Some (k + 4) /\
    (k = 0 \/ 2 ^ (k + 3) < x) /\ x <= 2 ^ (k + 4).
Proof.
  intros Hx. unfold round_power_2.
  destruct (round_power_2_loop_spec 64 0 x) as (k & Hk & Hr & H1 & H2); try lia.
  exists k. repeat split; try lia; assumption.
Qed.

Lemma round_power_2_small s :
  s <= 2048 ->
  exists k, 0 <= k <= 7 /\ round_power_2 s = Some (k + 4) /\
    (k = 0 \/ class_size (k - 1) < s) /\ s <= class_size k.
Proof.
  intros Hs.
  destruct (round_power_2_spec s) as (k & Hk & Hr & H1 & H2); [lia|].
  assert (k <= 7) as Hk7.
  { destruct H1 as [->|H1]; [lia|].
    assert (2 ^ (k + 3) < 2 ^ 11) as Hp by lia.
    apply Z.pow_lt_mono_r_iff in Hp; lia. }
  exists k. unfold class_size. replace (k - 1 + 4) with (k + 3) by ring.
  repeat split; try lia; assumption.
Qed.

(** The block size computed by [1 << list_index]. *)
Lemma block_size_of_index k :
  0 <= k <= 7 -> wrap64 (to_int32 (Z.shiftl 1 (k + 4))) = class_size k.
Proof. intros H. class_cases H; reflexivity. Qed.

Lemma index_of_list_index k : 0 <= k <= 7 -> wrap64 (k + 4 - 4) = k.
Proof. intros H. replace (k + 4 - 4) with k by ring. apply wrap64_small. lia. Qed.

(** The loop doubles for ever on a request above [2^63]: [accum] wraps to 0. *)
Lemma round_power_2_loop_diverges x fuel : forall acc i,
  2 ^ 63 < x ->
  (acc = 0 \/ exists j, 4 <= j <= 63 /\ acc = 2 ^ j) ->
  round_power_2_loop fuel acc i x = None.
Proof.
  induction fuel as [|f IH]; intros acc i Hx Hacc; [reflexivity|].
  simpl.
  assert (acc < x) as Hlt.
  { destruct Hacc as [->|(j & Hj & ->)]; [lia|].
    assert (2 ^ j <= 2 ^ 63) by (apply Z.pow_le_mono_r; lia). lia. }
  destruct (Z.ltb_spec acc x); [|lia].
  apply IH; [assumption|].
  destruct Hacc as [->|(j & Hj & ->)]; [left; reflexivity|].
  destruct (Z.eq_dec j 63) as [->|Hne]; [left; reflexivity|].
  right. exists (j + 1). split; [lia|].
  rewrite Z.pow_add_r by lia. apply wrap64_small.
  assert (2 ^ j <= 2 ^ 62) by (apply Z.pow_le_mono_r; lia).
  assert (0 < 2 ^ j) by (apply Z.pow_pos_nonneg; lia). lia.
Qed.

Lemma round_power_2_loop_more_fuel x fuel : forall acc i r,
  round_power_2_loop fuel acc i x = Some r ->
  round_power_2_loop (S fuel) acc i x = Some r.
Proof.
  induction fuel as [|f IH]; intros acc i r H; [discriminate|].
  simpl in H. change (round_power_2_loop (S (S f)) acc i x)
    with (if acc <? x then round_power_2_loop (S f) (wrap64 (acc * 2)) (wrap64 (i + 1)) x
          else Some (wrap64 (i + 4))).
  destruct (acc <? x); [apply IH|]; assumption.
Qed.

(** The fuel of [round_power_2] is enough: more fuel never changes the answer. *)
Lemma round_power_2_fuel x fuel :
  (64 <= fuel)%nat -> round_power_2_loop fuel 16 0 x = round_power_2 x.
Proof.
  intros Hf. destruct (Z.le_gt_cases x (2 ^ 63)) as [Hx|Hx].
  - destruct (round_power_2_spec x Hx) as (k & _ & Hr & _).
    rewrite Hr. unfold round_power_2 in Hr.
    induction Hf as [|f Hf IH]; [assumption|].
    apply round_power_2_loop_more_fuel. assumption.
  - unfold round_power_2.
    rewrite !(round_power_2_loop_diverges x); try lia; try reflexivity;
      right; exists 4; split; try lia; reflexivity.
Qed.

(** *** The halving loop of [xxfree] *)

Lemma class_of_size_class k :
  0 <= k <= 7 -> class_of_size (class_size k) = Some k.
Proof. intros H. class_cases H; reflexivity. Qed.

Lemma halve_loop_more_fuel fuel : forall start acc r,
  halve_loop fuel start acc = Some r -> halve_loop (S fuel) start acc = Some r.
Proof.
  induction fuel as [|f IH]; intros start acc r H; [discriminate|].
  simpl in H.
  change (halve_loop (S (S f)) start acc)
    with (if negb (start =? 16)
          then halve_loop (S f) (Z.shiftr start 1) (to_int32 (acc + 1))
          else Some acc).
  destruct (negb (start =? 16)); [apply IH|]; assumption.
Qed.

Lemma halve_loop_none fuel : forall start acc,
  (forall j, 0 <= j < Z.of_nat fuel -> Z.shiftr start j <> 16) ->
  halve_loop fuel start acc = None.
Proof.
  induction fuel as [|f IH]; intros start acc H; [reflexivity|].
  simpl. destruct (Z.eqb_spec start 16) as [E|E].
  - exfalso. apply (H 0); [lia|]. rewrite Z.shiftr_0_r. assumption.
  - simpl. apply IH. intros j Hj. rewrite Z.shiftr_shiftr by lia.
    apply H. lia.
Qed.

Lemma halve_loop_some fuel : forall start acc r,
  halve_loop fuel start acc = Some r ->
  exists j, 0 <= j < Z.of_nat fuel /\ Z.shiftr start j = 16.
Proof.
  induction fuel as [|f IH]; intros start acc r H; [discriminate|].
  simpl in H. destruct (Z.eqb_spec start 16) as [E|E]; simpl in H.
  - exists 0. split; [lia|]. rewrite Z.shiftr_0_r. assumption.
  - destruct (IH _ _ _ H) as (j & Hj & Hs).
    exists (1 + j). split; [lia|]. rewrite <- Z.shiftr_shiftr by lia. assumption.
Qed.

Lemma shiftr_int_stuck start j :
  - 2 ^ 31 <= start < 2 ^ 31 -> 32 <= j -> Z.shiftr start j <> 16.
Proof.
  intros Hs Hj. rewrite Z.shiftr_div_pow2 by lia.
  assert (2 ^ 32 <= 2 ^ j) by (apply Z.pow_le_mono_r; lia).
  assert (-1 <= start / 2 ^ j <= 0); [|lia].
  split.
  - apply Z.div_le_lower_bound; lia.
  - assert (start / 2 ^ j < 1); [|lia]. apply Z.div_lt_upper_bound; lia.
Qed.

Lemma to_int32_range z : - 2 ^ 31 <= to_int32 z < 2 ^ 31.
Proof.
  unfold to_int32. pose proof (Z.mod_pos_bound z (2 ^ 32)).
  destruct (Z.ltb_spec (z mod 2 ^ 32) (2 ^ 31)); lia.
Qed.

(** The fuel of [class_of_size] is enough: more fuel never changes the answer. *)
Lemma class_of_size_fuel bs fuel :
  (32 <= fuel)%nat -> halve_loop fuel (to_int32 bs) 0 = class_of_size bs.
Proof.
  intros Hf. unfold class_of_size.
  destruct (halve_loop 32 (to_int32 bs) 0) as [r|] eqn:E.
  - induction Hf as [|f Hf IH]; [assumption|].
    apply halve_loop_more_fuel. assumption.
  - apply halve_loop_none. intros j Hj.
    destruct (Z.lt_ge_cases j 32) as [Hlt|Hge].
    + intros Hs.
      assert (halve_loop 32 (to_int32 bs) 0 = None -> False); [|auto].
      clear E. revert Hs. generalize (to_int32 bs) as start. intros start Hs HN.
      assert (forall f start acc, halve_loop f start acc = None ->
                forall j, 0 <= j < Z.of_nat f -> Z.shiftr start j <> 16) as Hinv.
      { clear. induction f as [|f IH]; intros start acc H j Hj; [lia|].
        simpl in H. destruct (Z.eqb_spec start 16) as [E|E]; simpl in H; [discriminate|].
        destruct (Z.eq_dec j 0) as [->|Hj0]; [rewrite Z.shiftr_0_r; assumption|].
        replace j with (1 + (j - 1)) by ring.
        rewrite <- Z.shiftr_shiftr by lia. eapply IH; eauto. lia. }
      apply (Hinv _ _ _ HN j); [lia|assumption].
    + apply shiftr_int_stuck; [apply to_int32_range|assumption].
Qed.

(** ** Stepping through the monad *)

Lemma bind_Ret_inv {A B} (c : M A) (k : A -> M B) s b s' :
  bind c k s = Ret b s' -> exists a s1, c s = Ret a s1 /\ k a s1 = Ret b s'.
Proof.
  unfold bind. destruct (c s) as [a s1| | |]; try discriminate. eauto.
Qed.

Lemma bind_Ret {A B} (c : M A) (k : A -> M B) s a s1 :
  c s = Ret a s1 -> bind c k s = k a s1.
Proof. unfold bind. intros ->. reflexivity. Qed.

Lemma read_list_inv i s v s' :
  read_list i s = Ret v s' ->
  s' = s /\ 0 <= i /\ lists s !! Z.to_nat i = Some v.
Proof.
  unfold read_list. destruct (Z.ltb_spec i 0); [discriminate|].
  destruct (lists s !! Z.to_nat i) eqn:E; [|discriminate].
  intros [= <- <-]. auto.
Qed.

Lemma read_list_lookup i s v :
  0 <= i -> lists s !! Z.to_nat i = Some v -> read_list i s = Ret v s.
Proof.
  intros Hi H. unfold read_list. destruct (Z.ltb_spec i 0); [lia|].
  rewrite H. reflexivity.
Qed.

Lemma read_list_in_bounds i s :
  length (lists s) = 8%nat -> 0 <= i <= 7 -> exists v, read_list i s = Ret v s.
Proof.
  intros Hl Hi.
  destruct (lookup_lt_is_Some_2 (lists s) (Z.to_nat i)) as [v Hv]; [lia|].
  exists v. apply read_list_lookup; [lia|assumption].
Qed.

Lemma write_list_inv i v s u s' :
  write_list i v s = Ret u s' ->
  s' = mkState (<[Z.to_nat i := v]> (lists s)) (heap s) (trace s) /\
  0 <= i /\ (Z.to_nat i < length (lists s))%nat.
Proof.
  unfold write_list. destruct (Z.ltb_spec i 0); [discriminate|].
  destruct (lists s !! Z.to_nat i) eqn:E; [|discriminate].
  destruct u. intros [= <-]. split; [reflexivity|]. split; [assumption|].
  eapply lookup_lt_Some; eauto.
Qed.

Lemma write_list_in_bounds i v s :
  0 <= i -> (Z.to_nat i < length (lists s))%nat ->
  write_list i v s = Ret tt (mkState (<[Z.to_nat i := v]> (lists s)) (heap s) (trace s)).
Proof.
  intros Hi Hl. unfold write_list. destruct (Z.ltb_spec i 0); [lia|].
  destruct (lookup_lt_is_Some_2 (lists s) (Z.to_nat i) Hl) as [w ->]. reflexivity.
Qed.

Lemma store_mem_inv a n v s u s' :
  store_mem a n v s = Ret u s' ->
  lists s' = lists s /\ trace s' = trace s /\
  heap s' = Mem.write (heap s) a n v /\ Mem.mapped (heap s) a n = true.
Proof.
  unfold store_mem. destruct (Mem.store (heap s) a n v) as [m|] eqn:E; [|discriminate].
  destruct u. intros [= <-]. apply MemFacts.store_spec in E. destruct E as [-> Hm]. auto.
Qed.

Lemma store_mem_mapped a n v s :
  Mem.mapped (heap s) a n = true ->
  store_mem a n v s = Ret tt (mkState (lists s) (Mem.write (heap s) a n v) (trace s)).
Proof.
  intros H. unfold store_mem. rewrite MemFacts.store_mapped_total by assumption.
  reflexivity.
Qed.

Lemma load_mem_inv a n s v s' :
  load_mem a n s = Ret v s' -> s' = s /\ Mem.load (heap s) a n = Some v.
Proof.
  unfold load_mem. destruct (Mem.load (heap s) a n); [|discriminate].
  intros [= <- <-]. auto.
Qed.

Lemma load_mem_Some a n s v :
  Mem.load (heap s) a n = Some v -> load_mem a n s = Ret v s.
Proof. unfold load_mem. intros ->. reflexivity. Qed.

(** Logging then [exit(2)] always ends the process with status 2, whether or
    not the write to stderr works. *)
Lemma log_then_exit {A} e msg s :
  (log_message e msg ;;; @exit A 2) s =
  Exit 2 (mkState (lists s) (heap s) (logged e msg ++ trace s)).
Proof. unfold bind, log_message, exit. destruct (stderr_ok e); reflexivity. Qed.

Lemma mmap_requests_logged e msg tr :
  mmap_requests (logged e msg ++ tr) = mmap_requests tr.
Proof. unfold logged. destruct (stderr_ok e); reflexivity. Qed.

(** What the large-object path does, by cases on the answer of [mmap]. *)
Lemma xxmalloc_large e size s :
  2048 < size ->
  xxmalloc e size s =
  let len := ROUND_UP size PAGE_SIZE in
  match (if len =? 0 then None else mmap_result e) with
  | Some p =>
      let s1 := mkState (lists s) (Mem.map_zero (heap s) p len)
                        (EvMmap len (Some p) :: trace s) in
      if p =? MAP_FAILED
      then Exit 2 (mkState (lists s1) (heap s1) (logged e (failure_message size) ++ trace s1))
      else Ret p s1
  | None =>
      Exit 2 (mkState (lists s) (heap s)
                (logged e (failure_message size) ++ EvMmap len None :: trace s))
  end.
Proof.
  intros Hs. unfold xxmalloc, failure_message.
  destruct (Z.ltb_spec 2048 size); [|lia].
  cbv zeta. unfold bind at 1. unfold mmap.
  destruct (if ROUND_UP size PAGE_SIZE =? 0 then None else mmap_result e) as [p|].
  - destruct (p =? MAP_FAILED); [apply log_then_exit|reflexivity].
  - change (MAP_FAILED =? MAP_FAILED) with true. cbv iota. apply log_then_exit.
Qed.

(** *** [ROUND_UP] *)

Lemma ROUND_UP_page s :
  0 <= s <= 2 ^ 64 - 4096 ->
  let len := ROUND_UP s PAGE_SIZE in
  len mod PAGE_SIZE = 0 /\ s <= len < s + PAGE_SIZE /\
  forall len', len' mod PAGE_SIZE = 0 -> s <= len' -> len <= len'.
Proof.
  intros Hs. unfold ROUND_UP, PAGE_SIZE. cbv zeta.
  destruct (Z.eqb_spec (s mod 4096) 0) as [E|E].
  - repeat split; try lia; assumption.
  - rewrite (wrap64_small (4096 - s mod 4096)) by (Z.div_mod_to_equations; lia).
    rewrite wrap64_small by (Z.div_mod_to_equations; lia).
    repeat split; try (Z.div_mod_to_equations; lia).
    intros len' H1 H2. Z.div_mod_to_equations. lia.
Qed.

(** ** Carving a page *)

Lemma carve_loop_S k i n bs p st :
  carve_loop (S k) i n bs p st =
  (store64 (wrap64 (wrap64 (i * bs) + p)) (wrap64 (wrap64 (wrap64 (i * bs) + p) + bs)) ;;;
   (if i =? n - 1 then store64 (wrap64 (wrap64 (i * bs) + p)) 0 else ret tt) ;;;
   carve_loop k (i + 1) n bs p) st.
Proof. reflexivity. Qed.

Lemma range_mapped m p a :
  (forall x, p <= x < p + PAGE_SIZE -> m x <> None) ->
  p <= a -> a + 8 <= p + PAGE_SIZE -> Mem.mapped m a 8 = true.
Proof.
  intros Hm H1 H2. apply MemFacts.mapped_true. intros x Hx. apply Hm.
  change (Z.of_nat 8) with 8 in Hx. lia.
Qed.

(** The loop writes the [next] field of the blocks [i .. n-1] of the page at
    [p] and nothing else. *)
Lemma carve_loop_spec bs n p :
  16 <= bs -> n * bs <= PAGE_SIZE -> 0 <= p -> p + PAGE_SIZE <= 2 ^ 63 ->
  forall k i st,
    1 <= i -> i + Z.of_nat k = n ->
    (forall x, p <= x < p + PAGE_SIZE -> heap st x <> None) ->
    exists st',
      carve_loop k i n bs p st = Ret tt st' /\
      lists st' = lists st /\ trace st' = trace st /\
      (forall x, heap st' x <> None <-> heap st x <> None) /\
      (forall x, x < p + i * bs \/ p + n * bs <= x -> heap st' x = heap st x) /\
      (forall j, i <= j < n ->
         Mem.load (heap st') (p + j * bs) 8 =
         Some (if j =? n - 1 then 0 else p + (j + 1) * bs)).
Proof.
  intros Hbs Hn Hp0 Hp. unfold PAGE_SIZE in *.
  induction k as [|k IH]; intros i st Hi Hk Hm.
  - exists st. simpl. repeat split; auto; try tauto. intros j Hj. lia.
  - assert (0 <= i * bs) as Ha0 by nia.
    assert (i * bs + bs <= n * bs) as Ha1 by nia.
    rewrite carve_loop_S.
    assert (wrap64 (wrap64 (i * bs) + p) = p + i * bs) as ->.
    { rewrite (wrap64_small (i * bs)) by lia. rewrite wrap64_small by lia. ring. }
    set (p2 := p + i * bs) in *.
    set (v1 := wrap64 (p2 + bs)).
    assert (0 <= v1 < 256 ^ Z.of_nat 8) as Hv1.
    { change (256 ^ Z.of_nat 8) with (2 ^ 64). apply wrap64_range. }
    assert (Mem.mapped (heap st) p2 8 = true) as Hmap.
    { apply (range_mapped _ p); unfold PAGE_SIZE; auto; subst p2; lia. }
    unfold store64 at 1. erewrite bind_Ret by (apply store_mem_mapped; exact Hmap).
    set (st1 := mkState (lists st) (Mem.write (heap st) p2 8 v1) (trace st)).
    assert (forall x, heap st1 x <> None <-> heap st x <> None) as Hm1.
    { intros x. simpl. apply (MemFacts.store_keeps_mapped _ p2 8 v1).
      apply MemFacts.store_mapped_total. exact Hmap. }
    (* the state after the whole iteration, and the value left in the node *)
    assert (exists st2 v,
              (if i =? n - 1 then store64 p2 0 else ret tt) st1 = Ret tt st2 /\
              lists st2 = lists st /\ trace st2 = trace st /\
              (forall x, heap st2 x <> None <-> heap st x <> None) /\
              (forall x, x < p2 \/ p2 + 8 <= x -> heap st2 x = heap st x) /\
              Mem.load (heap st2) p2 8 = Some v /\
              v = (if i =? n - 1 then 0 else p + (i + 1) * bs))
      as (st2 & v & Hrun & Hl2 & Ht2 & Hm2 & Hf2 & Hld & Hv).
    { destruct (Z.eqb_spec i (n - 1)) as [E|E].
      - assert (Mem.mapped (heap st1) p2 8 = true) as Hmap1.
        { apply MemFacts.mapped_true. intros x Hx. apply Hm1.
          revert x Hx. apply MemFacts.mapped_true. exact Hmap. }
        exists (mkState (lists st1) (Mem.write (heap st1) p2 8 0) (trace st1)), 0.
        split; [apply store_mem_mapped; exact Hmap1|].
        split; [reflexivity|]. split; [reflexivity|].
        split; [|split; [|split; [|reflexivity]]]; simpl.
        + intros x. etransitivity; [|apply Hm1].
          apply (MemFacts.store_keeps_mapped (heap st1) p2 8 0).
          apply MemFacts.store_mapped_total. exact Hmap1.
        + intros x Hx. rewrite !MemFacts.write_outside; auto.
        + apply MemFacts.load_write_same. simpl. lia.
      - exists st1, v1. split; [reflexivity|].
        split; [reflexivity|]. split; [reflexivity|].
        split; [exact Hm1|]. split; [|split]; simpl.
        + intros x Hx. rewrite MemFacts.write_outside; auto.
        + apply MemFacts.load_write_same. exact Hv1.
        + subst v1 p2. rewrite wrap64_small by lia. ring. }
    rewrite (bind_Ret _ _ _ _ _ Hrun).
    destruct (IH (i + 1) st2) as (st' & Hrun' & Hl' & Ht' & Hm' & Hf' & Hld');
      [lia|lia|intros x Hx; apply Hm2; auto|].
    exists st'. split; [exact Hrun'|].
    split; [congruence|]. split; [congruence|].
    split; [intros x; rewrite Hm'; apply Hm2|].
    split.
    + intros x Hx. rewrite Hf' by lia. apply Hf2. subst p2. lia.
    + intros j Hj. destruct (Z.eq_dec j i) as [->|Hne].
      * rewrite <- Hv, <- Hld. apply MemFacts.load_ext.
        intros x Hx. change (Z.of_nat 8) with 8 in Hx. apply Hf'. subst p2. lia.
      * apply Hld'. lia.
Qed.

Lemma blocks_per_page k :
  0 <= k <= 7 ->
  let bs := class_size k in
  let n := PAGE_SIZE / bs in
  16 <= bs <= 2048 /\ 2 <= n <= 256 /\ n * bs = PAGE_SIZE /\ to_int32 n = n.
Proof. intros H. class_cases H; vm_compute; repeat split; discriminate. Qed.

Lemma header_mapped m p :
  (forall x, p <= x < p + PAGE_SIZE -> m x <> None) ->
  Mem.mapped m (p + OFF_MAGIC) 4 = true /\ Mem.mapped m (p + OFF_SIZE) 8 = true.
Proof.
  intros Hm. unfold OFF_MAGIC, OFF_SIZE, PAGE_SIZE in *.
  split; apply MemFacts.mapped_true; intros x Hx; apply Hm;
    [change (Z.of_nat 4) with 4 in Hx|change (Z.of_nat 8) with 8 in Hx]; lia.
Qed.

(** What the refill block of [xxmalloc] leaves behind when [mmap] succeeds:
    one page mapped at [p], its header in block 0, the blocks 1 .. n-1
    chained in address order, and the chain installed as the list of class
    [k]. *)
Lemma refill_spec e k p st :
  mmap_result e = Some p ->
  0 < p -> p mod PAGE_SIZE = 0 -> p + PAGE_SIZE <= 2 ^ 63 ->
  0 <= k <= 7 -> (Z.to_nat k < length (lists st))%nat ->
  let bs := class_size k in
  let n := PAGE_SIZE / bs in
  exists st',
    refill e k bs st = Ret tt st' /\
    lists st' = <[Z.to_nat k := p + bs]> (lists st) /\
    trace st' = EvMmap PAGE_SIZE (Some p) :: trace st /\
    (forall x, x < p \/ p + PAGE_SIZE <= x -> heap st' x = heap st x) /\
    (forall x, p <= x < p + PAGE_SIZE -> heap st' x <> None) /\
    tagged (heap st') p bs /\
    (forall j, 1 <= j < n ->
       Mem.load (heap st') (p + j * bs) 8 =
       Some (if j =? n - 1 then 0 else p + (j + 1) * bs)).
Proof.
  intros He Hp0 Hpa Hp Hk Hlen. cbv zeta.
  destruct (blocks_per_page k Hk) as (Hbs & Hn & Hnbs & Hn32). cbv zeta in *.
  set (bs := class_size k) in *. set (n := PAGE_SIZE / bs) in *.
  unfold refill. unfold bind at 1. unfold mmap.
  change (PAGE_SIZE =? 0) with false. cbv iota. rewrite He.
  destruct (Z.eqb_spec p MAP_FAILED) as [E|_]; [unfold MAP_FAILED, PAGE_SIZE in *; lia|].
  set (st0 := mkState (lists st) (Mem.map_zero (heap st) p PAGE_SIZE)
                      (EvMmap PAGE_SIZE (Some p) :: trace st)).
  assert (forall x, p <= x < p + PAGE_SIZE -> heap st0 x <> None) as Hm0.
  { intros x Hx. simpl. rewrite MemFacts.map_zero_inside by assumption. discriminate. }
  unfold carve_page. cbv zeta. fold n. rewrite Hn32.
  destruct (carve_loop_spec bs n p ltac:(lia) ltac:(lia) ltac:(lia) Hp
              (Z.to_nat (n - 1)) 1 st0 ltac:(lia) ltac:(lia) Hm0)
    as (st1 & Hrun1 & Hl1 & Ht1 & Hm1 & Hf1 & Hld1).
  rewrite (bind_Ret _ _ _ _ _ Hrun1).
  assert (forall x, p <= x < p + PAGE_SIZE -> heap st1 x <> None) as Hmp1.
  { intros x Hx. apply Hm1. auto. }
  destruct (header_mapped _ _ Hmp1) as [Hmg1 _].
  unfold store_int. erewrite bind_Ret by (apply store_mem_mapped; exact Hmg1).
  set (st2 := mkState (lists st1) (Mem.write (heap st1) (p + OFF_MAGIC) 4 MAGIC) (trace st1)).
  assert (forall x, heap st2 x <> None <-> heap st1 x <> None) as Hm2.
  { intros x. apply (MemFacts.store_keeps_mapped _ (p + OFF_MAGIC) 4 MAGIC).
    apply MemFacts.store_mapped_total. exact Hmg1. }
  assert (forall x, p <= x < p + PAGE_SIZE -> heap st2 x <> None) as Hmp2.
  { intros x Hx. apply Hm2. auto. }
  destruct (header_mapped _ _ Hmp2) as [_ Hsz2].
  unfold store64. erewrite bind_Ret by (apply store_mem_mapped; exact Hsz2).
  set (st3 := mkState (lists st2) (Mem.write (heap st2) (p + OFF_SIZE) 8 bs) (trace st2)).
  assert (wrap64 (p + bs) = p + bs) as -> by (apply wrap64_small; unfold PAGE_SIZE in *; lia).
  rewrite write_list_in_bounds; [|lia|simpl; rewrite Hl1; exact Hlen].
  eexists. split; [reflexivity|]. cbn [lists heap trace st3 st2].
  unfold st3, st2. cbn [lists heap trace].
  rewrite Hl1, Ht1. cbn [lists trace st0].
  split; [reflexivity|]. split; [reflexivity|].
  unfold tagged. unfold OFF_MAGIC, OFF_SIZE, PAGE_SIZE in *.
  split; [|split; [|split]].
  - intros x Hx. rewrite !MemFacts.write_outside by (simpl; lia).
    rewrite Hf1 by nia. simpl. apply MemFacts.map_zero_outside. lia.
  - intros x Hx.
    apply (MemFacts.store_keeps_mapped (heap st2) (p + 8) 8 bs _ x
             (MemFacts.store_mapped_total _ _ _ _ Hsz2)).
    apply Hmp2. lia.
  - split.
    + rewrite MemFacts.load_write_other by (simpl; lia).
      rewrite MemFacts.load_write_same by (vm_compute; split; [discriminate|reflexivity]).
      reflexivity.
    + apply MemFacts.load_write_same. change (256 ^ Z.of_nat 8) with (2 ^ 64). lia.
  - intros j Hj. rewrite !MemFacts.load_write_other by (simpl; nia).
    apply Hld1. lia.
Qed.

Lemma xxmalloc_small e s st k :
  s <= 2048 -> 0 <= k <= 7 -> round_power_2 s = Some (k + 4) ->
  xxmalloc e s st =
  (list <- read_list k ;;
   (if list =? 0 then refill e k (class_size k) else ret tt) ;;;
   pop k) st.
Proof.
  intros Hs Hk Hr. unfold xxmalloc.
  destruct (Z.ltb_spec 2048 s); [lia|].
  rewrite Hr. unfold bind at 1. unfold terminating.
  rewrite index_of_list_index, block_size_of_index by assumption.
  reflexivity.
Qed.

Lemma pop_spec k st h nx :
  0 <= k -> lists st !! Z.to_nat k = Some h -> Mem.load (heap st) h 8 = Some nx ->
  pop k st = Ret h (mkState (<[Z.to_nat k := nx]> (lists st)) (heap st) (trace st)).
Proof.
  intros Hk Hh Hl. unfold pop.
  rewrite (bind_Ret _ _ _ _ _ (read_list_lookup k st h Hk Hh)).
  unfold load64. rewrite (bind_Ret _ _ _ _ _ (load_mem_Some _ _ _ _ Hl)).
  rewrite (bind_Ret _ _ _ tt _ (write_list_in_bounds k nx st Hk (lookup_lt_Some _ _ _ Hh))).
  reflexivity.
Qed.

Lemma pop_inv k st r st' :
  pop k st = Ret r st' ->
  exists nx, 0 <= k /\ lists st !! Z.to_nat k = Some r /\
    Mem.load (heap st) r 8 = Some nx /\
    st' = mkState (<[Z.to_nat k := nx]> (lists st)) (heap st) (trace st).
Proof.
  unfold pop. intros H.
  apply bind_Ret_inv in H. destruct H as (h & s1 & H1 & H).
  apply read_list_inv in H1. destruct H1 as (-> & Hk & Hh).
  apply bind_Ret_inv in H. destruct H as (nx & s2 & H2 & H).
  apply load_mem_inv in H2. destruct H2 as (-> & Hl).
  apply bind_Ret_inv in H. destruct H as (u & s3 & H3 & H).
  apply write_list_inv in H3. destruct H3 as (-> & _ & _).
  unfold ret in H. injection H as <- <-.
  exists nx. auto.
Qed.

(** ** Running the small-object path *)

Lemma refill_fails e k bs st :
  mmap_result e = None ->
  refill e k bs st =
  Exit 2 (mkState (lists st) (heap st)
            (logged e ("mmap failed" ++ nl)%string ++ EvMmap PAGE_SIZE None :: trace st)).
Proof.
  intros He. unfold refill. unfold bind at 1. unfold mmap.
  change (PAGE_SIZE =? 0) with false. cbv iota. rewrite He.
  change (MAP_FAILED =? MAP_FAILED) with true. cbv iota.
  apply log_then_exit.
Qed.

Lemma valid_mmap_page m p :
  valid_mmap m PAGE_SIZE (Some p) ->
  0 < p /\ p mod PAGE_SIZE = 0 /\ p + PAGE_SIZE <= 2 ^ 63 /\ Mem.fresh m p PAGE_SIZE.
Proof. intros H. exact H. Qed.

(** The nodes of a freshly carved list, walked from block [j]. *)
Lemma walk_chain m p bs n :
  0 < p -> 0 < bs ->
  (forall j, 1 <= j < n ->
     Mem.load m (p + j * bs) 8 = Some (if j =? n - 1 then 0 else p + (j + 1) * bs)) ->
  forall cnt j,
    1 <= j <= n - 1 -> Z.of_nat cnt = n - j ->
    walk cnt m (p + j * bs) =
    Some (map (fun i : nat => p + Z.of_nat i * bs) (seq (Z.to_nat j) cnt)).
Proof.
  intros Hp Hbs Hld. induction cnt as [|cnt IH]; intros j Hj Hc; [lia|].
  assert (0 < j * bs) by nia.
  simpl. destruct (Z.eqb_spec (p + j * bs) 0); [lia|].
  rewrite Hld by lia.
  rewrite Z2Nat.id by lia.
  destruct (Z.eqb_spec j (n - 1)) as [E|E].
  - assert (cnt = O) as -> by lia. reflexivity.
  - rewrite IH by lia. simpl.
    replace (Z.to_nat (j + 1)) with (S (Z.to_nat j)) by lia. reflexivity.
Qed.

(** ** Reading the header *)

Lemma usable_size_tagged st ptr bs :
  0 < ptr < 2 ^ 63 -> tagged (heap st) (page_start ptr) bs ->
  xxmalloc_usable_size ptr st = Ret bs st.
Proof.
  intros Hp [Hmg Hsz]. unfold xxmalloc_usable_size.
  destruct (Z.eqb_spec ptr 0); [lia|]. cbv zeta.
  rewrite page_of_user by lia.
  unfold load_int, bind, load_mem.
  destruct (Mem.load (heap st) (page_start ptr + OFF_MAGIC) 4) as [v|]; [|discriminate].
  simpl in Hmg. injection Hmg as Hmg. unfold ret. rewrite Hmg.
  change (MAGIC =? MAGIC) with true. simpl. unfold load64, load_mem.
  rewrite Hsz. reflexivity.
Qed.

Lemma load_int_tagged st pg bs :
  tagged (heap st) pg bs -> load_int (pg + OFF_MAGIC) st = Ret MAGIC st.
Proof.
  intros [Hmg _]. unfold load_int, bind, load_mem.
  destruct (Mem.load (heap st) (pg + OFF_MAGIC) 4) as [v|]; [|discriminate].
  simpl in Hmg. injection Hmg as ->. reflexivity.
Qed.

(** The header of a page is read the same way after changes elsewhere. *)
Lemma tagged_ext m m' pg bs :
  (forall x, pg <= x < pg + 16 -> m' x = m x) ->
  tagged m pg bs -> tagged m' pg bs.
Proof.
  intros H [Hmg Hsz]. unfold tagged, OFF_MAGIC, OFF_SIZE in *. split.
  - rewrite <- Hmg. f_equal. apply MemFacts.load_ext. intros x Hx.
    apply H. change (Z.of_nat 4) with 4 in Hx. lia.
  - rewrite <- Hsz. apply MemFacts.load_ext. intros x Hx.
    apply H. change (Z.of_nat 8) with 8 in Hx. lia.
Qed.

Lemma tagged_extends m m' pg bs :
  Mem.extends m m' -> tagged m pg bs -> tagged m' pg bs.
Proof.
  intros He [Hmg Hsz]. split.
  - destruct (Mem.load m (pg + OFF_MAGIC) 4) as [v|] eqn:E; [|discriminate].
    rewrite (MemFacts.extends_load _ _ _ _ _ He E). assumption.
  - apply (MemFacts.extends_load _ _ _ _ _ He Hsz).
Qed.

Lemma tagged_size_unique m pg bs bs' :
  tagged m pg bs -> tagged m pg bs' -> bs = bs'.
Proof. intros [_ H] [_ H']. congruence. Qed.

Lemma aligned_in_page p k j :
  p mod PAGE_SIZE = 0 -> 0 <= k <= 7 -> (p + j * class_size k) mod class_size k = 0.
Proof.
  intros Hp Hk. destruct (blocks_per_page k Hk) as (Hbs & _ & Hn & _). cbv zeta in *.
  set (bs := class_size k) in *.
  apply Z.mod_divide in Hp; [|unfold PAGE_SIZE; lia]. destruct Hp as [q ->].
  rewrite <- Hn.
  replace (q * (PAGE_SIZE / bs * bs) + j * bs) with ((q * (PAGE_SIZE / bs) + j) * bs) by ring.
  apply Z.mod_mul. lia.
Qed.

(** ** Reachability *)

Lemma reach_nonzero m h a : reach m h a -> a <> 0.
Proof. intros H. destruct H; assumption. Qed.

Lemma reach_null m a : ~ reach m 0 a.
Proof.
  intros H. remember 0 as h eqn:Eh. induction H; [congruence|auto].
Qed.

(** The nodes of the tail of a list are nodes of the list. *)
Lemma reach_tail m h nx a :
  h <> 0 -> Mem.load m h 8 = Some nx -> reach m nx a -> reach m h a.
Proof.
  intros Hh Hl H. induction H as [Hnx|a b Ha IH Hb Hb0].
  - eapply reach_next; [apply reach_head; assumption|exact Hl|exact Hnx].
  - eapply reach_next; eauto.
Qed.

(** ** When the page source fails *)

Lemma xxmalloc_mmap_fails e size st :
  mmap_result e = None -> needs_page size st ->
  xxmalloc e size st =
  Exit 2 (mkState (lists st) (heap st)
            (logged e (failure_message size) ++
             EvMmap (request_len size) None :: trace st)).
Proof.
  unfold failure_message, request_len.
  intros He Hneed. destruct (Z.ltb_spec 2048 size) as [Hl|Hs].
  - rewrite xxmalloc_large by assumption. cbv zeta. rewrite He.
    unfold failure_message. destruct (Z.ltb_spec 2048 size); [|lia].
    destruct (ROUND_UP size PAGE_SIZE =? 0); reflexivity.
  - destruct Hneed as [Hl|(k & Hk & Hr & Hh)]; [lia|].
    rewrite (xxmalloc_small e size st k) by assumption.
    rewrite (bind_Ret _ _ _ _ _ (read_list_lookup k st 0 ltac:(lia) Hh)).
    change (0 =? 0) with true. cbv iota.
    unfold bind. rewrite refill_fails by assumption. reflexivity.
Qed.

(** A call that returns was served. *)
Lemma returned_served e size st r st' :
  xxmalloc e size st = Ret r st' -> served e size st.
Proof.
  intros Hrun Hneed He.
  rewrite xxmalloc_mmap_fails in Hrun by assumption. discriminate.
Qed.

(** ** The invariant *)

Lemma Inv_init : Inv init.
Proof.
  split; [reflexivity|]. intros i h a Hl Hr. exfalso.
  apply lookup_replicate in Hl. destruct Hl as [-> _].
  exact (reach_null _ _ Hr).
Qed.

Lemma Inv_tables_agree st : Inv st -> tables_agree st.
Proof. intros [_ H] i h a Hl Hr. exact (node_tagged _ _ _ (H i h a Hl Hr)). Qed.

(** A list head is [NULL] or a well-formed node. *)
Lemma Inv_head st i h :
  Inv st -> lists st !! i = Some h -> h = 0 \/ node_ok (heap st) (Z.of_nat i) h.
Proof.
  intros [_ H] Hl. destruct (Z.eq_dec h 0) as [->|Hne]; [left; reflexivity|].
  right. apply (H i h h Hl). apply reach_head. assumption.
Qed.

Lemma node_ok_extends m m' i a :
  Mem.extends m m' -> node_ok m i a -> node_ok m' i a.
Proof.
  intros He [H1 H2 H3 H4]. constructor; auto.
  - eapply MemFacts.extends_mapped; eauto.
  - eapply tagged_extends; eauto.
Qed.

Lemma mapped_load_some m a n :
  Mem.mapped m a n = true -> exists v, Mem.load m a n = Some v.
Proof.
  unfold Mem.mapped. destruct (Mem.load m a n) as [v|]; [eauto|discriminate].
Qed.

(** Memory that only grows keeps every list as it is. *)
Lemma reach_extends m m' i h a :
  Mem.extends m m' ->
  (forall b, reach m h b -> node_ok m i b) ->
  reach m' h a -> reach m h a.
Proof.
  intros He Hok H. induction H as [Hh|a b Ha IH Hb Hb0].
  - apply reach_head. assumption.
  - destruct (mapped_load_some _ _ _ (node_mapped _ _ _ (Hok a IH))) as [v Hv].
    pose proof (MemFacts.extends_load _ _ _ _ _ He Hv) as Hv'.
    eapply reach_next; eauto. congruence.
Qed.

Lemma Inv_extends st m' tr :
  Inv st -> Mem.extends (heap st) m' -> Inv (mkState (lists st) m' tr).
Proof.
  intros [Hlen H] He. split; [exact Hlen|]. simpl. intros i h a Hl Hr.
  apply (node_ok_extends (heap st)); [exact He|].
  apply (H i h a Hl). eapply reach_extends; eauto.
Qed.

Lemma Inv_pop st k r st' :
  Inv st -> r <> 0 -> pop k st = Ret r st' -> Inv st'.
Proof.
  intros [Hlen H] Hr0 Hpop.
  apply pop_inv in Hpop. destruct Hpop as (nx & Hk & Hh & Hl & ->).
  split; [simpl; rewrite length_insert; exact Hlen|]. simpl.
  intros i h a Hi Hr.
  destruct (Nat.eq_dec i (Z.to_nat k)) as [->|Hne].
  - rewrite list_lookup_insert_eq in Hi by (eapply lookup_lt_Some; eauto).
    injection Hi as <-. apply (H _ r a Hh). eapply reach_tail; eauto.
  - rewrite list_lookup_insert_ne in Hi by auto. eauto.
Qed.

(** The nodes of a list just carved are the blocks 1 .. n-1 of its page. *)
Lemma reach_carved m p bs n a :
  (forall j, 1 <= j < n ->
     Mem.load m (p + j * bs) 8 = Some (if j =? n - 1 then 0 else p + (j + 1) * bs)) ->
  2 <= n ->
  reach m (p + bs) a -> exists j, 1 <= j < n /\ a = p + j * bs.
Proof.
  intros Hld Hn H. induction H as [Hh|a b Ha IH Hb Hb0].
  - exists 1. split; [lia|ring].
  - destruct IH as (j & Hj & ->). rewrite Hld in Hb by assumption.
    destruct (Z.eqb_spec j (n - 1)); [congruence|].
    injection Hb as <-. exists (j + 1). split; [lia|reflexivity].
Qed.

Lemma Inv_refill e k p st st1 :
  Inv st -> 0 <= k <= 7 -> lists st !! Z.to_nat k = Some 0 ->
  mmap_result e = Some p -> valid_mmap (heap st) PAGE_SIZE (Some p) ->
  refill e k (class_size k) st = Ret tt st1 ->
  Inv st1 /\ lists st1 !! Z.to_nat k = Some (p + class_size k) /\
  node_ok (heap st1) k (p + class_size k).
Proof.
  intros HI Hk Hh He Hv Hfill.
  pose proof HI as [Hlen H].
  apply valid_mmap_page in Hv. destruct Hv as (Hp & Hpa & Hpu & Hfresh).
  destruct (refill_spec e k p st He Hp Hpa Hpu Hk (lookup_lt_Some _ _ _ Hh))
    as (st1' & Hfill' & Hl1 & Ht1 & Hframe & Hmapped & Htag & Hld).
  assert (st1' = st1) as -> by congruence.
  destruct (blocks_per_page k Hk) as (Hbs & Hn & Hnbs & _). cbv zeta in *.
  set (bs := class_size k) in *. set (n := PAGE_SIZE / bs) in *.
  assert (Mem.extends (heap st) (heap st1)) as Hext.
  { intros x Hx. apply Hframe.
    destruct (Z.lt_ge_cases x p); [left; assumption|].
    destruct (Z.lt_ge_cases x (p + PAGE_SIZE)); [|right; assumption].
    exfalso. apply Hx. apply Hfresh. lia. }
  assert (forall j, 1 <= j < n -> node_ok (heap st1) k (p + j * bs)) as Hnodes.
  { intros j Hj. unfold PAGE_SIZE in *. constructor.
    - nia.
    - apply aligned_in_page; assumption.
    - apply MemFacts.mapped_true. intros x Hx. change (Z.of_nat 8) with 8 in Hx.
      apply Hmapped. nia.
    - rewrite (page_start_in_page p) by (unfold PAGE_SIZE; auto; nia). exact Htag. }
  split; [|split].
  - split; [rewrite Hl1, length_insert; exact Hlen|].
    intros i h a Hi Hr. rewrite Hl1 in Hi.
    destruct (Nat.eq_dec i (Z.to_nat k)) as [->|Hne].
    + rewrite list_lookup_insert_eq in Hi by (eapply lookup_lt_Some; eauto).
      injection Hi as <-. rewrite Z2Nat.id by lia.
      destruct (reach_carved _ _ _ _ _ Hld ltac:(lia) Hr) as (j & Hj & ->).
      apply Hnodes. assumption.
    + rewrite list_lookup_insert_ne in Hi by auto.
      apply (node_ok_extends (heap st)); [exact Hext|].
      apply (H i h a Hi). eapply reach_extends; eauto.
  - rewrite Hl1. apply list_lookup_insert_eq. eapply lookup_lt_Some; eauto.
  - replace (p + bs) with (p + 1 * bs) by ring. apply Hnodes. lia.
Qed.

(** The small-object path, run on a well-formed state: it returns a
    well-formed block of the class of the request and keeps the invariant. *)
Lemma xxmalloc_small_run e s st :
  s <= 2048 -> Inv st ->
  valid_mmap (heap st) PAGE_SIZE (mmap_result e) -> served e s st ->
  exists k r st',
    0 <= k <= 7 /\ round_power_2 s = Some (k + 4) /\
    (k = 0 \/ class_size (k - 1) < s) /\ s <= class_size k /\
    xxmalloc e s st = Ret r st' /\
    drawn_from_class e st k r /\
    node_ok (heap st') k r /\ Inv st'.
Proof.
  intros Hs HI Hv Hserved.
  destruct (round_power_2_small s Hs) as (k & Hk & Hr & Hlow & Hup).
  pose proof HI as [Hlen H].
  destruct (lookup_lt_is_Some_2 (lists st) (Z.to_nat k)) as [h Hh]; [lia|].
  exists k. rewrite (xxmalloc_small e s st k) by assumption.
  rewrite (bind_Ret _ _ _ _ _ (read_list_lookup k st h ltac:(lia) Hh)).
  destruct (Z.eqb_spec h 0) as [->|Hne].
  - destruct (mmap_result e) as [p|] eqn:He.
    2:{ exfalso. apply Hserved; [|exact He]. right. exists k. auto. }
    pose proof Hv as Hv'.
    apply valid_mmap_page in Hv'. destruct Hv' as (Hp & Hpa & Hpu & _).
    destruct (refill_spec e k p st He Hp Hpa Hpu Hk (lookup_lt_Some _ _ _ Hh))
      as (st1 & Hfill & _).
    destruct (Inv_refill e k p st st1 HI Hk Hh He Hv Hfill) as (HI1 & Hh1 & Hok1).
    rewrite (bind_Ret _ _ _ _ _ Hfill).
    destruct (mapped_load_some _ _ _ (node_mapped _ _ _ Hok1)) as [nx Hnx].
    rewrite (pop_spec k st1 _ nx ltac:(lia) Hh1 Hnx).
    eexists _, _. split; [exact Hk|]. split; [exact Hr|]. split; [exact Hlow|].
    split; [exact Hup|]. split; [reflexivity|]. split; [|split; [exact Hok1|]].
    + right. split; [assumption|]. exists p. auto.
    + apply (Inv_pop st1 k (p + class_size k)); [assumption| |].
      * pose proof (class_size_bounds k Hk). lia.
      * apply pop_spec; auto. lia.
  - unfold ret at 1. unfold bind at 1.
    assert (node_ok (heap st) k h) as Hok.
    { rewrite <- (Z2Nat.id k) by lia. apply (H _ h h Hh). apply reach_head. assumption. }
    destruct (mapped_load_some _ _ _ (node_mapped _ _ _ Hok)) as [nx Hnx].
    rewrite (pop_spec k st h nx ltac:(lia) Hh Hnx).
    eexists _, _. split; [exact Hk|]. split; [exact Hr|]. split; [exact Hlow|].
    split; [exact Hup|]. split; [reflexivity|]. split; [|split; [exact Hok|]].
    + left. auto.
    + apply (Inv_pop st k h); [assumption|assumption|].
      apply pop_spec; auto. lia.
Qed.

(** ** Running the large-object path *)

Lemma ROUND_UP_nonzero s :
  0 < s < 2 ^ 64 -> ROUND_UP s PAGE_SIZE <> 0 -> s <= 2 ^ 64 - 4096.
Proof.
  unfold ROUND_UP, PAGE_SIZE, wrap64. intros Hs.
  destruct (Z.eqb_spec (s mod 4096) 0) as [E|E].
  - intros _. Z.div_mod_to_equations. lia.
  - intros H. rewrite (Z.mod_small (4096 - s mod 4096)) in H
      by (Z.div_mod_to_equations; lia).
    destruct (Z.le_gt_cases s (2 ^ 64 - 4096)) as [|Hbig]; [assumption|].
    exfalso. apply H.
    assert (s + (4096 - s mod 4096) = 2 ^ 64) as ->; [|reflexivity].
    Z.div_mod_to_equations. lia.
Qed.

Lemma xxmalloc_large_inv e s st r st' :
  2048 < s -> xxmalloc e s st = Ret r st' ->
  let len := ROUND_UP s PAGE_SIZE in
  len <> 0 /\ mmap_result e = Some r /\
  st' = mkState (lists st) (Mem.map_zero (heap st) r len)
                (EvMmap len (Some r) :: trace st).
Proof.
  intros Hs Hrun. rewrite xxmalloc_large in Hrun by assumption. cbv zeta in *.
  destruct (Z.eqb_spec (ROUND_UP s PAGE_SIZE) 0); [discriminate|].
  destruct (mmap_result e) as [p|]; [|discriminate].
  destruct (p =? MAP_FAILED); [discriminate|].
  injection Hrun as <- <-. auto.
Qed.

Lemma xxmalloc_large_run e s p st :
  2048 < s <= 2 ^ 64 - 4096 -> mmap_result e = Some p ->
  valid_mmap (heap st) (request_len s) (Some p) ->
  let len := ROUND_UP s PAGE_SIZE in
  xxmalloc e s st =
  Ret p (mkState (lists st) (Mem.map_zero (heap st) p len)
           (EvMmap len (Some p) :: trace st)).
Proof.
  intros Hs He (Hp & _ & Hpu & _). cbv zeta.
  destruct (ROUND_UP_page s ltac:(lia)) as (_ & Hle & _). cbv zeta in Hle.
  unfold request_len in Hpu. destruct (Z.ltb_spec 2048 s); [|lia].
  rewrite xxmalloc_large by lia. cbv zeta.
  destruct (Z.eqb_spec (ROUND_UP s PAGE_SIZE) 0); [lia|].
  rewrite He. destruct (Z.eqb_spec p MAP_FAILED); [unfold MAP_FAILED in *; lia|].
  reflexivity.
Qed.

(** A fresh anonymous mapping carries no tag: its first word reads as 0. *)
Lemma usable_size_fresh_mapping st p len tr :
  0 < p < 2 ^ 63 -> p mod PAGE_SIZE = 0 -> 4 <= len ->
  let st' := mkState (lists st) (Mem.map_zero (heap st) p len) tr in
  xxmalloc_usable_size p st' = Ret 0 st'.
Proof.
  intros Hp Hpa Hlen. cbv zeta. unfold xxmalloc_usable_size.
  destruct (Z.eqb_spec p 0); [lia|]. cbv zeta.
  rewrite page_of_user by lia.
  rewrite (page_start_in_page p p) by (unfold PAGE_SIZE; auto; lia).
  unfold load_int, bind, load_mem. cbn [heap].
  rewrite MemFacts.load_zero; [reflexivity|].
  intros x Hx. change (Z.of_nat 4) with 4 in Hx. unfold OFF_MAGIC in Hx.
  apply MemFacts.map_zero_inside. lia.
Qed.

Lemma least_class_of_request s k :
  0 <= k <= 7 -> (k = 0 \/ class_size (k - 1) < s) -> s <= class_size k ->
  least_class s (class_size k).
Proof.
  intros Hk Hlow Hup. pose proof (class_size_bounds k Hk) as Hb.
  unfold least_class, class_size in *. split; [|split].
  - exists (k + 4). split; [lia|reflexivity].
  - lia.
  - intros j Hj Hmax. apply Z.pow_le_mono_r; [lia|].
    destruct Hlow as [->|Hlow].
    + assert (2 ^ 3 < 2 ^ j) as Hlt by (change (2 ^ 3) with 8; lia).
      apply Z.pow_lt_mono_r_iff in Hlt; lia.
    + replace (k - 1 + 4) with (k + 3) in Hlow by ring.
      assert (2 ^ (k + 3) < 2 ^ j) as Hlt by lia.
      apply Z.pow_lt_mono_r_iff in Hlt; lia.
Qed.

(** ** Running [xxfree] *)

(** On a pointer whose page carries the tag and a class size, [xxfree]
    pushes the start of the block on the list of the class. *)
Lemma xxfree_small st ptr k :
  0 < ptr < 2 ^ 64 -> 0 <= k <= 7 ->
  xxmalloc_usable_size ptr st = Ret (class_size k) st ->
  xxfree ptr st =
  (cur <- read_list k ;;
   write_list k (ptr - ptr mod class_size k) ;;;
   store64 (ptr - ptr mod class_size k) cur) st.
Proof.
  intros Hp Hk Hus. pose proof (class_size_bounds k Hk) as Hb.
  unfold xxfree. pose proof Hus as Hus'. unfold xxmalloc_usable_size in Hus'.
  destruct (Z.eqb_spec ptr 0); [lia|]. cbv zeta in *.
  unfold bind at 1. unfold bind at 1 in Hus'.
  destruct (load_int (page_of ptr + OFF_MAGIC) st) as [magic s1| | |] eqn:Hmg;
    try discriminate.
  assert (s1 = st) as ->.
  { unfold load_int, bind in Hmg. destruct (load_mem _ _ st) as [v s2| | |] eqn:E;
      try discriminate.
    apply load_mem_inv in E. destruct E as [-> _]. unfold ret in Hmg. congruence. }
  destruct (negb (magic =? MAGIC)).
  { unfold ret in Hus'. injection Hus' as Hz. lia. }
  rewrite (bind_Ret _ _ _ _ _ Hus).
  destruct (Z.eqb_spec (class_size k) 0); [lia|].
  rewrite class_of_size_class by assumption.
  unfold bind at 1. unfold terminating.
  rewrite wrap64_to_intptr by lia.
  rewrite (wrap64_small (ptr - ptr mod class_size k)); [reflexivity|].
  pose proof (Z.mod_pos_bound ptr (class_size k) ltac:(lia)).
  assert (ptr mod class_size k <= ptr) by (apply Z.mod_le; lia). lia.
Qed.

Lemma xxfree_small_inv st ptr k st' :
  0 < ptr < 2 ^ 64 -> 0 <= k <= 7 ->
  xxmalloc_usable_size ptr st = Ret (class_size k) st ->
  xxfree ptr st = Ret tt st' ->
  let p := ptr - ptr mod class_size k in
  exists cur,
    lists st !! Z.to_nat k = Some cur /\
    Mem.mapped (heap st) p 8 = true /\
    st' = mkState (<[Z.to_nat k := p]> (lists st)) (Mem.write (heap st) p 8 cur) (trace st).
Proof.
  intros Hp Hk Hus Hrun. cbv zeta.
  rewrite (xxfree_small st ptr k Hp Hk Hus) in Hrun.
  apply bind_Ret_inv in Hrun. destruct Hrun as (cur & s1 & Hread & Hrun).
  apply read_list_inv in Hread. destruct Hread as (-> & _ & Hcur).
  apply bind_Ret_inv in Hrun. destruct Hrun as (u & s2 & Hw & Hrun).
  apply write_list_inv in Hw. destruct Hw as (-> & _ & _).
  unfold store64, store_mem in Hrun. cbn [heap lists trace] in Hrun.
  destruct (Mem.store (heap st) _ 8 cur) as [m|] eqn:E; [|discriminate].
  apply MemFacts.store_spec in E. destruct E as [-> Hm].
  injection Hrun as <-. exists cur. auto.
Qed.

Lemma block_start_facts ptr k :
  0 <= k <= 7 -> 0 <= ptr -> class_size k <= ptr mod PAGE_SIZE ->
  let p := ptr - ptr mod class_size k in
  0 < p <= ptr /\ p mod class_size k = 0 /\ p mod 16 = 0 /\
  page_start p = page_start ptr /\
  16 <= p mod PAGE_SIZE /\ p mod PAGE_SIZE + 16 <= PAGE_SIZE.
Proof.
  intros Hk Hp. unfold page_start, PAGE_SIZE. cbv zeta.
  class_cases Hk;
    match goal with |- context [class_size ?i] =>
      let v := eval vm_compute in (class_size i) in change (class_size i) with v
    end;
    intros Hb; Z.div_mod_to_equations; lia.
Qed.

Lemma aligned_16 i a : 0 <= i <= 7 -> a mod class_size i = 0 -> a mod 16 = 0.
Proof.
  intros Hi. class_cases Hi;
    match goal with |- context [class_size ?i] =>
      let v := eval vm_compute in (class_size i) in change (class_size i) with v
    end;
    intros H; Z.div_mod_to_equations; lia.
Qed.

(** A store into a block past the header block of its page leaves every
    page header as it is. *)
Lemma header_untouched m p cur pg bs :
  16 <= p mod PAGE_SIZE -> p mod PAGE_SIZE + 16 <= PAGE_SIZE ->
  pg mod PAGE_SIZE = 0 ->
  tagged m pg bs -> tagged (Mem.write m p 8 cur) pg bs.
Proof.
  unfold PAGE_SIZE. intros H1 H2 Hpg. apply tagged_ext.
  intros x Hx. apply MemFacts.write_outside. change (Z.of_nat 8) with 8.
  Z.div_mod_to_equations. lia.
Qed.

Lemma write_keeps_mapped m p cur a :
  Mem.mapped m p 8 = true -> Mem.mapped m a 8 = true ->
  Mem.mapped (Mem.write m p 8 cur) a 8 = true.
Proof.
  intros Hp Ha. apply MemFacts.mapped_true. intros x Hx.
  apply (MemFacts.store_keeps_mapped m p 8 cur _ x (MemFacts.store_mapped_total _ _ _ _ Hp)).
  revert x Hx. apply MemFacts.mapped_true. exact Ha.
Qed.

Lemma node_ok_write m p cur i a :
  16 <= p mod PAGE_SIZE -> p mod PAGE_SIZE + 16 <= PAGE_SIZE ->
  Mem.mapped m p 8 = true ->
  node_ok m i a -> node_ok (Mem.write m p 8 cur) i a.
Proof.
  intros H1 H2 Hp [Hr Ha Hm Ht]. constructor; auto.
  - apply write_keeps_mapped; assumption.
  - apply header_untouched; auto. apply page_start_aligned.
Qed.

Lemma load_other_node m p cur a :
  p mod 16 = 0 -> a mod 16 = 0 -> a <> p ->
  Mem.load (Mem.write m p 8 cur) a 8 = Mem.load m a 8.
Proof.
  intros Hp Ha Hne. apply MemFacts.load_write_other. change (Z.of_nat 8) with 8.
  Z.div_mod_to_equations. lia.
Qed.

(** [xxfree] of a pointer into a carved block keeps the invariant. *)
Lemma Inv_xxfree_carved st ptr st' :
  Inv st -> 0 <= ptr < 2 ^ 63 -> carved_block st ptr ->
  xxfree ptr st = Ret tt st' -> Inv st'.
Proof.
  intros HI Hptr (k & Hk & Htag & Hpast) Hrun.
  pose proof HI as [Hlen H].
  pose proof (class_size_bounds k Hk) as Hbs.
  destruct (block_start_facts ptr k Hk ltac:(lia) Hpast)
    as (Hp & Hpal & Hp16 & Hpg & Hlo & Hhi). cbv zeta in *.
  assert (0 < ptr) as Hpos by lia.
  pose proof (usable_size_tagged st ptr _ ltac:(lia) Htag) as Hus.
  destruct (xxfree_small_inv st ptr k st' ltac:(lia) Hk Hus Hrun)
    as (cur & Hcur & Hmp & ->). cbv zeta in *.
  set (p := ptr - ptr mod class_size k) in *.
  set (m := heap st) in *.
  assert (cur = 0 \/ node_ok m k cur) as Hcur_ok.
  { rewrite <- (Z2Nat.id k) by lia. apply Inv_head; assumption. }
  assert (0 <= cur < 256 ^ Z.of_nat 8) as Hcur_range.
  { change (256 ^ Z.of_nat 8) with (2 ^ 64).
    destruct Hcur_ok as [->|Hok]; [lia|]. pose proof (node_range _ _ _ Hok). lia. }
  assert (node_ok (Mem.write m p 8 cur) k p) as Hp_ok.
  { constructor.
    - lia.
    - exact Hpal.
    - apply write_keeps_mapped; assumption.
    - rewrite Hpg. apply header_untouched; auto. apply page_start_aligned. }
  split; [cbn [lists]; rewrite length_insert; exact Hlen|].
  cbn [lists heap]. intros i h a Hi Hr.
  assert (0 <= Z.of_nat i <= 7) as Hi7.
  { apply lookup_lt_Some in Hi. rewrite length_insert in Hi. lia. }
  destruct (Nat.eq_dec i (Z.to_nat k)) as [->|Hne].
  - rewrite list_lookup_insert_eq in Hi by (eapply lookup_lt_Some; eauto).
    injection Hi as <-. rewrite Z2Nat.id by lia.
    assert (a = p \/ reach m cur a) as [->|Hra].
    { induction Hr as [Hh|a b Ha IH Hb Hb0]; [left; reflexivity|].
      destruct (Z.eq_dec a p) as [->|Hap].
      - rewrite MemFacts.load_write_same in Hb by exact Hcur_range.
        injection Hb as <-. right. apply reach_head. assumption.
      - destruct IH as [->|Hra]; [contradiction|]. right.
        assert (node_ok m k a) as Hok.
        { rewrite <- (Z2Nat.id k) by lia. exact (H _ cur a Hcur Hra). }
        rewrite load_other_node in Hb; auto.
        + eapply reach_next; eauto.
        + eapply aligned_16; [exact Hk|]. exact (node_aligned _ _ _ Hok). }
    + exact Hp_ok.
    + apply node_ok_write; auto.
      rewrite <- (Z2Nat.id k) by lia. exact (H _ cur a Hcur Hra).
  - rewrite list_lookup_insert_ne in Hi by auto.
    assert (reach m h a) as Hra.
    { induction Hr as [Hh|a b Ha IH Hb Hb0]; [apply reach_head; assumption|].
      pose proof (H i h a Hi IH) as Hok.
      assert (a <> p) as Hap.
      { intros ->. apply Hne.
        pose proof (node_tagged _ _ _ Hok) as Ht. rewrite Hpg in Ht.
        pose proof (tagged_size_unique _ _ _ _ Ht Htag) as Heq.
        apply class_size_inj in Heq; lia. }
      rewrite load_other_node in Hb; auto.
      - eapply reach_next; eauto.
      - eapply aligned_16; [exact Hi7|]. exact (node_aligned _ _ _ Hok). }
    apply node_ok_write; auto. exact (H i h a Hi Hra).
Qed.

(** ** Pointers that are not recognised *)

Lemma usable_size_foreign st ptr :
  foreign st ptr -> xxmalloc_usable_size ptr st = Ret 0 st.
Proof.
  intros [->|(v & Hv & Hne)]; [reflexivity|].
  unfold xxmalloc_usable_size.
  destruct (ptr =? 0); [reflexivity|].
  cbv zeta. unfold load_int, bind, load_mem. rewrite Hv. unfold ret.
  destruct (Z.eqb_spec (to_int32 v) MAGIC); [contradiction|]. reflexivity.
Qed.

Lemma xxfree_foreign st ptr :
  foreign st ptr -> xxfree ptr st = Ret tt st.
Proof.
  intros [->|(v & Hv & Hne)]; [reflexivity|].
  unfold xxfree.
  destruct (ptr =? 0); [reflexivity|].
  cbv zeta. unfold load_int, bind, load_mem. rewrite Hv. unfold ret.
  destruct (Z.eqb_spec (to_int32 v) MAGIC); [contradiction|]. reflexivity.
Qed.

Lemma Inv_xxfree st ptr st' :
  Inv st -> 0 <= ptr < 2 ^ 63 -> releasable st ptr ->
  xxfree ptr st = Ret tt st' -> Inv st'.
Proof.
  intros HI Hptr [Hf|Hc] Hrun.
  - rewrite (xxfree_foreign st ptr Hf) in Hrun. injection Hrun as <-. exact HI.
  - eapply Inv_xxfree_carved; eauto.
Qed.

Lemma Inv_xxmalloc e s st r st' :
  Inv st -> 0 <= s < 2 ^ 64 ->
  valid_mmap (heap st) (request_len s) (mmap_result e) ->
  xxmalloc e s st = Ret r st' -> Inv st'.
Proof.
  intros HI Hs Hv Hrun. unfold request_len in Hv.
  destruct (Z.ltb_spec 2048 s) as [Hl|Hsm].
  - destruct (xxmalloc_large_inv e s st r st' Hl Hrun) as (_ & He & ->).
    cbv zeta. rewrite He in Hv. destruct Hv as (_ & _ & _ & Hfresh).
    apply Inv_extends; [exact HI|]. apply MemFacts.extends_map_zero. exact Hfresh.
  - destruct (xxmalloc_small_run e s st Hsm HI Hv (returned_served _ _ _ _ _ Hrun))
      as (k & r' & st'' & _ & _ & _ & _ & Hrun' & _ & _ & HI').
    assert (st'' = st') as <- by congruence. exact HI'.
Qed.

(** ** The table is only accessed in bounds *)

(** C10: for every request [s <= 2048], [round_power_2 s] returns a value in
    [4, 11], so the index [list_index - 4] used by [xxmalloc] lies in [0, 7]
    and the table access is in bounds; and for every class size recorded in a
    page header the halving loop of [xxfree] ends with an index in [0, 7],
    again in bounds. *)
Theorem table_access_in_bounds :
  (forall s st, 0 <= s <= 2048 -> length (lists st) = 8%nat ->
     exists li v, round_power_2 s = Some li /\ 4 <= li <= 11 /\
       0 <= wrap64 (li - 4) <= 7 /\ read_list (wrap64 (li - 4)) st = Ret v st) /\
  (forall bs st, In bs class_sizes -> length (lists st) = 8%nat ->
     exists accum v, class_of_size bs = Some accum /\ 0 <= accum <= 7 /\
       read_list accum st = Ret v st).
Proof.
  split.
  - intros s st Hs Hl.
    destruct (round_power_2_small s) as (k & Hk & Hr & _); [lia|].
    destruct (read_list_in_bounds k st Hl Hk) as [v Hv].
    exists (k + 4), v. rewrite index_of_list_index by assumption.
    repeat split; try lia; assumption.
  - intros bs st Hin Hl.
    assert (exists k, 0 <= k <= 7 /\ bs = class_size k) as (k & Hk & ->).
    { simpl in Hin.
      destruct Hin as [<-|[<-|[<-|[<-|[<-|[<-|[<-|[<-|[]]]]]]]]];
        [exists 0|exists 1|exists 2|exists 3|exists 4|exists 5|exists 6|exists 7];
        (split; [lia|reflexivity]). }
    destruct (read_list_in_bounds k st Hl Hk) as [v Hv].
    exists k, v. rewrite class_of_size_class by assumption.
    repeat split; try lia; assumption.
Qed.

Lemma table_access_in_bounds_witness :
  (exists li v, round_power_2 2048 = Some li /\ 4 <= li <= 11 /\
     0 <= wrap64 (li - 4) <= 7 /\ read_list (wrap64 (li - 4)) init = Ret v init) /\
  (exists accum v, class_of_size 2048 = Some accum /\ 0 <= accum <= 7 /\
     read_list accum init = Ret v init).
Proof.
  split.
  - apply (proj1 table_access_in_bounds 2048 init); [lia|reflexivity].
  - apply (proj2 table_access_in_bounds 2048 init); [|reflexivity].
    simpl. tauto.
Defined.

(** ** The length asked of the page source *)

(** C9, as the code has it: for every request [2048 < s <= 2^64 - 4096] the
    length [xxmalloc] passes to [mmap] is the least multiple of the page size
    that is at least [s]. *)
Theorem large_request_length e s st :
  2048 < s <= 2 ^ 64 - 4096 -> passes_least_multiple e s st.
Proof.
  intros Hs. unfold passes_least_multiple.
  destruct (ROUND_UP_page s) as (Hmod & Hle & Hleast); [lia|].
  cbv zeta in *. rewrite xxmalloc_large by lia. cbv zeta.
  set (len := ROUND_UP s PAGE_SIZE) in *.
  destruct (if len =? 0 then None else mmap_result e) as [p|].
  - destruct (p =? MAP_FAILED); eexists _, len; (split; [reflexivity|]);
      simpl; rewrite ?mmap_requests_logged; simpl; repeat split; auto; lia.
  - eexists _, len. split; [reflexivity|].
    simpl. rewrite mmap_requests_logged. simpl. repeat split; auto; lia.
Qed.

Lemma large_request_length_witness : passes_least_multiple (env_ok 65536) 3000 init.
Proof. apply large_request_length. lia. Defined.

(** C9 as stated fails near the top of the range: for [s = 2^64 - 1] the sum
    wraps and the length passed to [mmap] is 0. *)
Lemma large_request_length_wraps :
  ~ passes_least_multiple (env_ok 65536) (2 ^ 64 - 1) init.
Proof.
  unfold passes_least_multiple. intros (s' & len & Hst & Hreq & _ & Hle & _).
  vm_compute in Hst. injection Hst as <-.
  vm_compute in Hreq. injection Hreq as <-.
  vm_compute in Hle. apply Hle. reflexivity.
Qed.

(** ** Pointers the allocator does not recognise *)

(** C7: [xxfree] of [NULL], or of a pointer whose page does not begin with
    the tag, returns with the whole state (table, free lists, headers)
    unchanged, and [xxmalloc_usable_size] returns 0 there. *)
Theorem foreign_pointer_ignored st ptr :
  foreign st ptr ->
  xxfree ptr st = Ret tt st /\ xxmalloc_usable_size ptr st = Ret 0 st.
Proof.
  intros H. split; [apply xxfree_foreign|apply usable_size_foreign]; exact H.
Qed.

Lemma foreign_pointer_ignored_witness :
  (xxfree 0 init = Ret tt init /\ xxmalloc_usable_size 0 init = Ret 0 init) /\
  (let st := mkState (replicate 8 0) (Mem.map_zero Mem.empty 65536 4096) [] in
   xxfree 65600 st = Ret tt st /\ xxmalloc_usable_size 65600 st = Ret 0 st).
Proof.
  split.
  - apply foreign_pointer_ignored. left. reflexivity.
  - apply foreign_pointer_ignored. right. exists 0. split; [reflexivity|].
    vm_compute. discriminate.
Defined.

(** ** Failure of the page source *)

(** C8: when [mmap] fails, [xxmalloc] does not return: it logs through
    [log_message] and the process exits with status 2, after a single call
    to [mmap] and with the table and the memory as they were; and a call
    that does return never returns [NULL]. *)
Theorem mapping_failure_is_fatal e size st :
  (mmap_result e = None -> needs_page size st ->
   xxmalloc e size st =
   Exit 2 (mkState (lists st) (heap st)
             (logged e (failure_message size) ++
              EvMmap (request_len size) None :: trace st))) /\
  (forall r st',
     0 <= size ->
     valid_mmap (heap st) (request_len size) (mmap_result e) ->
     xxmalloc e size st = Ret r st' -> r <> 0).
Proof.
  split; [apply xxmalloc_mmap_fails|]. unfold request_len.
  - intros r st' Hsz Hv Hrun. destruct (Z.ltb_spec 2048 size) as [Hl|Hs].
    + rewrite xxmalloc_large in Hrun by assumption. cbv zeta in Hrun.
      destruct (ROUND_UP size PAGE_SIZE =? 0); [discriminate|].
      destruct (mmap_result e) as [p|]; [|discriminate].
      destruct (p =? MAP_FAILED); [discriminate|].
      injection Hrun as <- _. destruct Hv as (Hp & _). lia.
    + destruct (round_power_2_small size Hs) as (k & Hk & Hr & _).
      rewrite (xxmalloc_small e size st k) in Hrun by assumption.
      apply bind_Ret_inv in Hrun. destruct Hrun as (h & s1 & Hread & Hrun).
      apply read_list_inv in Hread. destruct Hread as (-> & _ & Hh).
      apply bind_Ret_inv in Hrun. destruct Hrun as (u & s2 & Hfill & Hpop).
      apply pop_inv in Hpop. destruct Hpop as (nx & _ & Hr' & _).
      destruct (Z.eqb_spec h 0) as [->|Hne].
      * destruct (mmap_result e) as [p|] eqn:He.
        -- apply valid_mmap_page in Hv. destruct Hv as (Hp & Hpa & Hpu & _).
           destruct (refill_spec e k p st He Hp Hpa Hpu Hk (lookup_lt_Some _ _ _ Hh))
             as (s2' & Hfill' & Hl2 & _).
           assert (s2 = s2') as -> by congruence.
           rewrite Hl2, list_lookup_insert_eq in Hr' by (eapply lookup_lt_Some; eauto).
           injection Hr' as <-.
           pose proof (class_size_bounds k Hk). lia.
        -- rewrite refill_fails in Hfill by assumption. discriminate.
      * unfold ret in Hfill. assert (s2 = st) as -> by congruence. congruence.
Qed.

Lemma mapping_failure_is_fatal_witness :
  (xxmalloc env_fail 3000 init =
   Exit 2 (mkState (lists init) (heap init)
             (logged env_fail (failure_message 3000) ++
              EvMmap (request_len 3000) None :: trace init))) /\
  (xxmalloc env_fail 100 init =
   Exit 2 (mkState (lists init) (heap init)
             (logged env_fail (failure_message 100) ++
              EvMmap (request_len 100) None :: trace init))) /\
  result_of (xxmalloc (env_ok 65536) 2048 init) <> Some 0.
Proof.
  split; [|split].
  - apply (proj1 (mapping_failure_is_fatal env_fail 3000 init)); [reflexivity|].
    left. lia.
  - apply (proj1 (mapping_failure_is_fatal env_fail 100 init)); [reflexivity|].
    right. exists 3. split; [lia|]. split; reflexivity.
  - destruct (xxmalloc (env_ok 65536) 2048 init) as [r st'| | |] eqn:E;
      simpl; try discriminate.
    intros [= ->].
    apply (proj2 (mapping_failure_is_fatal (env_ok 65536) 2048 init) 0 st');
      [lia| |exact E|reflexivity].
    split; [reflexivity|]. split; [reflexivity|]. split; [vm_compute; discriminate|].
    intros x _. reflexivity.
Defined.

(** ** Carving a page for an empty list *)

(** C3: when [xxmalloc] finds the free list of the class empty it maps
    exactly one page; the page is cut into [PAGE_SIZE / block_size] equal
    blocks; block 0 holds the header (tag and block size) and is not on the
    list; blocks 1 .. n-1 are chained in address order, each [next] being
    the block that follows and the last [next] being [NULL]; that chain is
    installed as the head of the class, from which the call then pops. *)
Theorem carve_on_empty_list e s k p st :
  0 <= s <= 2048 -> 0 <= k <= 7 -> round_power_2 s = Some (k + 4) ->
  lists st !! Z.to_nat k = Some 0 ->
  mmap_result e = Some p -> valid_mmap (heap st) PAGE_SIZE (Some p) ->
  let bs := class_size k in
  let n := PAGE_SIZE / bs in
  let blocks := map (fun i : nat => p + Z.of_nat i * bs) (seq 1 (Z.to_nat (n - 1))) in
  exists st1,
    refill e k bs st = Ret tt st1 /\
    xxmalloc e s st = pop k st1 /\
    mmap_requests (trace st1) = PAGE_SIZE :: mmap_requests (trace st) /\
    n * bs = PAGE_SIZE /\
    tagged (heap st1) p bs /\
    (forall j, 1 <= j < n - 1 ->
       Mem.load (heap st1) (p + j * bs) 8 = Some (p + (j + 1) * bs)) /\
    Mem.load (heap st1) (p + (n - 1) * bs) 8 = Some 0 /\
    walk (Z.to_nat (n - 1)) (heap st1) (p + bs) = Some blocks /\
    ~ In p blocks /\
    lists st1 = <[Z.to_nat k := p + bs]> (lists st).
Proof.
  intros Hs Hk Hr Hh He Hv. cbv zeta.
  apply valid_mmap_page in Hv. destruct Hv as (Hp & Hpa & Hpu & _).
  destruct (refill_spec e k p st He Hp Hpa Hpu Hk (lookup_lt_Some _ _ _ Hh))
    as (st1 & Hfill & Hl1 & Ht1 & _ & _ & Htag & Hld).
  destruct (blocks_per_page k Hk) as (Hbs & Hn & Hnbs & _). cbv zeta in *.
  set (bs := class_size k) in *. set (n := PAGE_SIZE / bs) in *.
  exists st1. split; [exact Hfill|]. split; [|split; [|split; [|split; [|split; [|split; [|split; [|split]]]]]]].
  - rewrite (xxmalloc_small e s st k) by (assumption || lia).
    rewrite (bind_Ret _ _ _ _ _ (read_list_lookup k st 0 ltac:(lia) Hh)).
    change (0 =? 0) with true. cbv iota. fold bs.
    rewrite (bind_Ret _ _ _ _ _ Hfill). reflexivity.
  - rewrite Ht1. reflexivity.
  - exact Hnbs.
  - exact Htag.
  - intros j Hj. rewrite Hld by lia.
    destruct (Z.eqb_spec j (n - 1)); [lia|reflexivity].
  - rewrite Hld by lia. rewrite Z.eqb_refl. reflexivity.
  - replace (p + bs) with (p + 1 * bs) by ring.
    apply (walk_chain (heap st1) p bs n); try lia. exact Hld.
  - rewrite in_map_iff. intros (i & Hi & Hin). apply in_seq in Hin. nia.
  - exact Hl1.
Qed.

Lemma carve_on_empty_list_witness :
  exists st1,
    refill (env_ok 65536) 6 1024 init = Ret tt st1 /\
    xxmalloc (env_ok 65536) 1000 init = pop 6 st1 /\
    mmap_requests (trace st1) = [4096] /\
    4 * 1024 = 4096 /\
    tagged (heap st1) 65536 1024 /\
    (forall j, 1 <= j < 3 ->
       Mem.load (heap st1) (65536 + j * 1024) 8 = Some (65536 + (j + 1) * 1024)) /\
    Mem.load (heap st1) (65536 + 3 * 1024) 8 = Some 0 /\
    walk 3 (heap st1) (65536 + 1024) = Some [66560; 67584; 68608] /\
    ~ In 65536 [66560; 67584; 68608] /\
    lists st1 = [0; 0; 0; 0; 0; 0; 66560; 0].
Proof.
  apply (carve_on_empty_list (env_ok 65536) 1000 6 65536 init);
    try reflexivity; try lia.
  split; [reflexivity|]. split; [reflexivity|]. split; [vm_compute; discriminate|].
  intros x _. reflexivity.
Defined.

(** ** What a small request gets *)

(** C1: for every request [0 <= s <= 2048] served on a well-formed state,
    [xxmalloc] returns a block drawn from the list of the class whose block
    size is the least power of two that is at least [max s 16], and
    [xxmalloc_usable_size] of the returned pointer is that block size, which
    is at least [s]. *)
Theorem small_request_class e s st :
  0 <= s <= 2048 -> Inv st ->
  valid_mmap (heap st) PAGE_SIZE (mmap_result e) -> served e s st ->
  exists k r st',
    0 <= k <= 7 /\ least_class s (class_size k) /\
    xxmalloc e s st = Ret r st' /\
    drawn_from_class e st k r /\
    xxmalloc_usable_size r st' = Ret (class_size k) st' /\
    s <= class_size k.
Proof.
  intros Hs HI Hv Hserved.
  destruct (xxmalloc_small_run e s st ltac:(lia) HI Hv Hserved)
    as (k & r & st' & Hk & Hr & Hlow & Hup & Hrun & Hdrawn & Hok & _).
  exists k, r, st'. split; [exact Hk|].
  split; [apply least_class_of_request; assumption|].
  split; [exact Hrun|]. split; [exact Hdrawn|]. split; [|exact Hup].
  apply usable_size_tagged.
  - exact (node_range _ _ _ Hok).
  - exact (node_tagged _ _ _ Hok).
Qed.

Lemma small_request_class_witness :
  exists k r st',
    0 <= k <= 7 /\ least_class 16 (class_size k) /\
    xxmalloc (env_ok 65536) 16 init = Ret r st' /\
    drawn_from_class (env_ok 65536) init k r /\
    xxmalloc_usable_size r st' = Ret (class_size k) st' /\
    16 <= class_size k.
Proof.
  apply (small_request_class (env_ok 65536) 16 init); [lia|apply Inv_init| |].
  - split; [reflexivity|]. split; [reflexivity|]. split; [vm_compute; discriminate|].
    intros x _. reflexivity.
  - intros _. discriminate.
Defined.

(** ** Alignment *)

(** C6: on a well-formed state every address [xxmalloc] returns is a
    multiple of the block size of its class for a small request and of the
    page size for a large one; and a request that can be served does return. *)
Theorem allocation_alignment e s st :
  0 <= s < 2 ^ 64 -> Inv st ->
  valid_mmap (heap st) (request_len s) (mmap_result e) ->
  (forall r st', xxmalloc e s st = Ret r st' -> aligned_for s r) /\
  (s <= 2 ^ 64 - 4096 -> served e s st ->
   exists r st', xxmalloc e s st = Ret r st').
Proof.
  intros Hs HI Hv. unfold aligned_for, request_len in *.
  destruct (Z.ltb_spec 2048 s) as [Hl|Hsm].
  - split.
    + intros r st' Hrun.
      destruct (xxmalloc_large_inv e s st r st' Hl Hrun) as (_ & He & _).
      rewrite He in Hv. destruct Hv as (_ & Hpa & _). exact Hpa.
    + intros Hup Hserved.
      destruct (mmap_result e) as [p|] eqn:He.
      * eexists _, _. apply (xxmalloc_large_run e s p st); [lia|exact He|].
        unfold request_len. destruct (Z.ltb_spec 2048 s); [exact Hv|lia].
      * exfalso. apply Hserved; [left; assumption|exact He].
  - split.
    + intros r st' Hrun.
      destruct (xxmalloc_small_run e s st Hsm HI Hv (returned_served _ _ _ _ _ Hrun))
        as (k & r' & st'' & Hk & Hr & _ & _ & Hrun' & _ & Hok & _).
      assert (r' = r) as -> by congruence.
      exists k. split; [exact Hk|]. split; [exact Hr|].
      exact (node_aligned _ _ _ Hok).
    + intros _ Hserved.
      destruct (xxmalloc_small_run e s st Hsm HI Hv Hserved)
        as (k & r & st' & _ & _ & _ & _ & Hrun & _).
      eauto.
Qed.

Lemma allocation_alignment_witness :
  (forall r st', xxmalloc (env_ok 65536) 100 init = Ret r st' -> aligned_for 100 r) /\
  (forall r st', xxmalloc (env_ok 65536) 5000 init = Ret r st' -> aligned_for 5000 r) /\
  (exists r st', xxmalloc (env_ok 65536) 100 init = Ret r st').
Proof.
  assert (forall len, len <= 8192 -> valid_mmap Mem.empty len (Some 65536)) as Hv.
  { intros len Hlen. split; [reflexivity|]. split; [reflexivity|]. split; [lia|].
    intros x _. reflexivity. }
  split; [|split].
  - apply (proj1 (allocation_alignment (env_ok 65536) 100 init
                    ltac:(lia) Inv_init (Hv 4096 ltac:(lia)))).
  - apply (proj1 (allocation_alignment (env_ok 65536) 5000 init
                    ltac:(lia) Inv_init (Hv 8192 ltac:(lia)))).
  - apply (proj2 (allocation_alignment (env_ok 65536) 100 init
                    ltac:(lia) Inv_init (Hv 4096 ltac:(lia)))); [lia|].
    intros _. discriminate.
Defined.

(** ** What a large request gets *)

(** The large-object path in general: whenever [xxmalloc] returns for a
    request [s > 2048], the pointer is the base of a fresh zero-filled
    mapping whose length is a multiple of the page size and at least [s],
    but the mapping has no header, so [xxmalloc_usable_size] of the returned
    pointer is 0.  A request of at most [2^64 - 4096] bytes that can be
    served does return. *)
Theorem large_request_usable_size e s st :
  2048 < s < 2 ^ 64 ->
  valid_mmap (heap st) (request_len s) (mmap_result e) ->
  (forall r st',
     xxmalloc e s st = Ret r st' ->
     xxmalloc_usable_size r st' = Ret 0 st' /\
     request_len s mod PAGE_SIZE = 0 /\ s <= request_len s /\
     forall x, r <= x < r + request_len s -> heap st' x = Some 0) /\
  (s <= 2 ^ 64 - 4096 -> served e s st ->
   exists r st', xxmalloc e s st = Ret r st').
Proof.
  intros Hs Hv. split.
  - intros r st' Hrun.
    destruct (xxmalloc_large_inv e s st r st' ltac:(lia) Hrun) as (Hlen & He & ->).
    cbv zeta in *.
    pose proof (ROUND_UP_nonzero s ltac:(lia) Hlen) as Hup.
    destruct (ROUND_UP_page s ltac:(lia)) as (Hmod & Hle & _). cbv zeta in *.
    rewrite He in Hv. destruct Hv as (Hp & Hpa & Hpu & _).
    unfold request_len in *. destruct (Z.ltb_spec 2048 s); [|lia].
    split; [|split; [exact Hmod|split; [lia|]]].
    + apply usable_size_fresh_mapping; auto; lia.
    + intros x Hx. cbn [heap]. apply MemFacts.map_zero_inside. exact Hx.
  - intros Hup Hserved.
    destruct (mmap_result e) as [p|] eqn:He.
    + eexists _, _. apply (xxmalloc_large_run e s p st); [lia|exact He|exact Hv].
    + exfalso. apply Hserved; [left; lia|exact He].
Qed.

Lemma large_request_usable_size_witness :
  (forall r st',
     xxmalloc (env_ok 65536) 3000 init = Ret r st' ->
     xxmalloc_usable_size r st' = Ret 0 st' /\
     request_len 3000 mod PAGE_SIZE = 0 /\ 3000 <= request_len 3000 /\
     forall x, r <= x < r + request_len 3000 -> heap st' x = Some 0) /\
  (exists r st', xxmalloc (env_ok 65536) 3000 init = Ret r st').
Proof.
  assert (valid_mmap (heap init) (request_len 3000) (mmap_result (env_ok 65536))) as Hv.
  { split; [reflexivity|]. split; [reflexivity|]. split; [vm_compute; discriminate|].
    intros x _. reflexivity. }
  split.
  - apply (proj1 (large_request_usable_size (env_ok 65536) 3000 init ltac:(lia) Hv)).
  - apply (proj2 (large_request_usable_size (env_ok 65536) 3000 init ltac:(lia) Hv));
      [lia|]. intros _. discriminate.
Defined.

(** On a request of 3000 bytes no run gives a usable size that covers the
    request: the pointer returned is the base of a fresh mapping, where
    [xxmalloc_usable_size] finds no tag and answers 0. *)
Lemma large_request_usable_size_not_covering :
  ~ usable_covers_request (env_ok 65536) 3000 init.
Proof.
  intros (r & s' & u & s'' & Hrun & Hus & Hle & _).
  destruct (xxmalloc_large_inv (env_ok 65536) 3000 init r s' ltac:(lia) Hrun)
    as (_ & He & ->).
  cbv zeta in Hus. injection He as <-.
  change (ROUND_UP 3000 PAGE_SIZE) with 4096 in Hus.
  rewrite (usable_size_fresh_mapping init 65536 4096) in Hus by (try reflexivity; lia).
  injection Hus as <- _. lia.
Qed.

(** C2 is broken by the code: a request of 3000 bytes is served by a
    mapping of 4096 bytes, so 4096 bytes were actually allocated, yet
    [xxmalloc_usable_size] of the pointer returned is 0: it is neither at
    least the 3000 bytes requested nor the space allocated, which is what
    the comment above [xxmalloc_usable_size] promises and what the
    small-object path delivers. *)
Theorem large_usable_size_defect :
  exists st',
    xxmalloc (env_ok 65536) 3000 init = Ret 65536 st' /\
    mmap_requests (trace st') = [4096] /\
    (forall x, 65536 <= x < 65536 + 4096 -> heap st' x = Some 0) /\
    xxmalloc_usable_size 65536 st' = Ret 0 st' /\
    ~ 3000 <= 0.
Proof.
  exists (mkState (lists init) (Mem.map_zero (heap init) 65536 4096)
            (EvMmap 4096 (Some 65536) :: trace init)).
  split; [|split; [reflexivity|split; [|split]]].
  - apply (xxmalloc_large_run (env_ok 65536) 3000 65536 init); [lia|reflexivity|].
    split; [reflexivity|]. split; [reflexivity|]. split; [vm_compute; discriminate|].
    intros x _. reflexivity.
  - intros x Hx. cbn [heap]. apply MemFacts.map_zero_inside. exact Hx.
  - apply (usable_size_fresh_mapping init 65536 4096); try reflexivity; lia.
  - lia.
Qed.

(** ** Reuse of freed blocks *)



(** ** The table and the page headers agree *)

(** C5: the invariant [Inv] contains the agreement of the table with the
    page headers ([tables_agree]: every node reachable from [lists[i]] lies
    in a page tagged with block size [2^(i+4)]); it holds at start and every
    [xxmalloc] and every [xxfree] of a releasable pointer keeps it. *)
Theorem invariant_preserved st :
  Inv st ->
  tables_agree st /\
  (forall e s r st',
     0 <= s < 2 ^ 64 ->
     valid_mmap (heap st) (request_len s) (mmap_result e) ->
     xxmalloc e s st = Ret r st' -> Inv st' /\ tables_agree st') /\
  (forall ptr st',
     0 <= ptr < 2 ^ 63 -> releasable st ptr ->
     xxfree ptr st = Ret tt st' -> Inv st' /\ tables_agree st').
Proof.
  intros HI. split; [apply Inv_tables_agree; exact HI|]. split.
  - intros e s r st' Hs Hv Hrun.
    pose proof (Inv_xxmalloc e s st r st' HI Hs Hv Hrun) as HI'.
    split; [exact HI'|apply Inv_tables_agree; exact HI'].
  - intros ptr st' Hptr Hrel Hrun.
    pose proof (Inv_xxfree st ptr st' HI Hptr Hrel Hrun) as HI'.
    split; [exact HI'|apply Inv_tables_agree; exact HI'].
Qed.

Lemma invariant_preserved_witness :
  let st1 := after (xxmalloc (env_ok 65536) 2048 init) in
  let st2 := after (xxfree 67590 st1) in
  tables_agree init /\ tables_agree st1 /\ tables_agree st2.
Proof.
  cbv zeta.
  destruct (invariant_preserved init Inv_init) as (H0 & Hm & _).
  destruct (Hm (env_ok 65536) 2048 67584 (after (xxmalloc (env_ok 65536) 2048 init)))
    as (HI1 & H1); [lia| |reflexivity|].
  { split; [reflexivity|]. split; [reflexivity|]. split; [vm_compute; discriminate|].
    intros x _. reflexivity. }
  destruct (invariant_preserved _ HI1) as (_ & _ & Hf).
  destruct (Hf 67590 (after (xxfree 67590 (after (xxmalloc (env_ok 65536) 2048 init)))))
    as (_ & H2); [lia| |reflexivity|].
  { right. exists 7. split; [lia|]. split; [split; reflexivity|].
    vm_compute. discriminate. }
  auto.
Defined.

(** ** An end-to-end run *)

(** Three requests of 16 bytes come from one carved page at distinct block
    starts; after the second is freed, the next request of 16 bytes gets it
    back. *)
Example three_blocks_then_reuse :
  let e := env_ok 65536 in
  let s1 := after (xxmalloc e 16 init) in
  let s2 := after (xxmalloc env_fail 16 s1) in
  let s3 := after (xxmalloc env_fail 16 s2) in
  let s4 := after (xxfree 65568 s3) in
  result_of (xxmalloc e 16 init) = Some 65552 /\
  result_of (xxmalloc env_fail 16 s1) = Some 65568 /\
  result_of (xxmalloc env_fail 16 s2) = Some 65584 /\
  result_of (xxfree 65568 s3) = Some tt /\
  result_of (xxmalloc env_fail 16 s4) = Some 65568 /\
  mmap_requests (trace s4) = [4096].
Proof. vm_compute. repeat split; reflexivity. Qed.

(** * Further properties of the allocator *)

(** ** Helper lemmas *)

(** [xxfree] on a pointer whose page carries the tag and a non-zero size. *)
Lemma xxfree_tagged st ptr bs :
  0 < ptr < 2 ^ 63 -> tagged (heap st) (page_start ptr) bs -> bs <> 0 ->
  xxfree ptr st =
  (accum <- terminating (class_of_size bs) ;;
   cur <- read_list accum ;;
   write_list accum (wrap64 (ptr - ptr mod bs)) ;;;
   store64 (wrap64 (ptr - ptr mod bs)) cur) st.
Proof.
  intros Hp Htag Hbs. unfold xxfree.
  destruct (Z.eqb_spec ptr 0); [lia|]. cbv zeta.
  rewrite page_of_user by lia.
  rewrite (bind_Ret _ _ _ _ _ (load_int_tagged st _ _ Htag)).
  change (negb (MAGIC =? MAGIC)) with false. cbv iota.
  rewrite (bind_Ret _ _ _ _ _ (usable_size_tagged st ptr bs Hp Htag)).
  destruct (Z.eqb_spec bs 0); [contradiction|].
  rewrite wrap64_to_intptr by lia. reflexivity.
Qed.

Lemma shiftr_16_zero j : 0 <= j -> Z.shiftr 16 j = 16 -> j = 0.
Proof.
  intros Hj H. destruct (Z.eq_dec j 0) as [|Hne]; [assumption|exfalso].
  rewrite Z.shiftr_div_pow2 in H by lia.
  assert (2 <= 2 ^ j).
  { change 2 with (2 ^ 1) at 1. apply Z.pow_le_mono_r; lia. }
  assert (16 / 2 ^ j <= 16 / 2) by (apply Z.div_le_compat_l; lia).
  change (16 / 2) with 8 in *. lia.
Qed.

(** The halving loop counts the shifts needed to reach 16. *)
Lemma halve_loop_exact fuel : forall start acc j,
  0 <= j < Z.of_nat fuel -> 0 <= acc -> acc + j < 2 ^ 31 ->
  Z.shiftr start j = 16 ->
  halve_loop fuel start acc = Some (acc + j).
Proof.
  induction fuel as [|f IH]; intros start acc j Hj Hacc Hsum Hs; [lia|].
  simpl. destruct (Z.eqb_spec start 16) as [->|Hne]; simpl.
  - apply shiftr_16_zero in Hs; [|lia]. subst j. f_equal. ring.
  - assert (j <> 0) by (intros ->; rewrite Z.shiftr_0_r in Hs; contradiction).
    rewrite to_int32_small by lia.
    rewrite (IH (Z.shiftr start 1) (acc + 1) (j - 1)); try lia.
    + f_equal. ring.
    + rewrite Z.shiftr_shiftr by lia. replace (1 + (j - 1)) with j by ring. assumption.
Qed.

Lemma class_of_size_iff bs a :
  class_of_size bs = Some a <-> (0 <= a /\ Z.shiftr (to_int32 bs) a = 16).
Proof.
  unfold class_of_size. split.
  - intros H. destruct (halve_loop_some _ _ _ _ H) as (j & Hj & Hs).
    rewrite (halve_loop_exact 32 _ 0 j) in H by (auto; lia).
    injection H as <-. split; [lia|assumption].
  - intros [Ha Hs].
    destruct (Z.lt_ge_cases a 32) as [Hlt|Hge].
    + apply (halve_loop_exact 32 _ 0 a); auto; lia.
    + exfalso. revert Hs. apply shiftr_int_stuck; [apply to_int32_range|assumption].
Qed.

(** ** The loops *)

(** X1: [round_power_2] returns exactly on the arguments up to [2^63], with
    the exponent of the least power of two that is at least [max x 16]; on a
    larger argument [accum] wraps to 0 and the loop never ends, whatever the
    number of rounds. *)
Theorem round_power_2_domain x :
  (x <= 2 ^ 63 ->
   exists k, 0 <= k <= 59 /\ round_power_2 x = Some (k + 4) /\
     (k = 0 \/ 2 ^ (k + 3) < x) /\ x <= 2 ^ (k + 4)) /\
  (2 ^ 63 < x -> forall fuel, round_power_2_loop fuel 16 0 x = None).
Proof.
  split.
  - apply round_power_2_spec.
  - intros Hx fuel. apply round_power_2_loop_diverges; [assumption|].
    right. exists 4. split; [lia|reflexivity].
Qed.

Lemma round_power_2_domain_witness :
  (exists k, 0 <= k <= 59 /\ round_power_2 5000 = Some (k + 4) /\
     (k = 0 \/ 2 ^ (k + 3) < 5000) /\ 5000 <= 2 ^ (k + 4)) /\
  (forall fuel, round_power_2_loop fuel 16 0 (2 ^ 63 + 1) = None).
Proof.
  split.
  - apply (proj1 (round_power_2_domain 5000)). lia.
  - apply (proj2 (round_power_2_domain (2 ^ 63 + 1))). lia.
Defined.

(** X2: the halving loop of [xxfree] ends exactly when some right shift of
    the block size, read as an [int], is 16, and then gives the number of
    shifts; a size that is not a power of two may pass (33 gives 1), and on
    any other size the loop runs for ever, whatever the number of rounds. *)
Theorem halving_loop_domain bs :
  (forall a, class_of_size bs = Some a <->
             (0 <= a /\ Z.shiftr (to_int32 bs) a = 16)) /\
  (class_of_size bs = None ->
   forall fuel, halve_loop fuel (to_int32 bs) 0 = None).
Proof.
  split; [intros a; apply class_of_size_iff|].
  intros HN fuel.
  destruct (Nat.le_gt_cases 32 fuel) as [Hf|Hf].
  - rewrite class_of_size_fuel by assumption. exact HN.
  - destruct (halve_loop fuel (to_int32 bs) 0) as [r|] eqn:E; [|reflexivity].
    exfalso. unfold class_of_size in HN.
    assert (forall n, (fuel <= n)%nat -> halve_loop n (to_int32 bs) 0 = Some r) as Hup.
    { intros n Hn. induction Hn as [|n Hn IH]; [exact E|].
      apply halve_loop_more_fuel. exact IH. }
    rewrite (Hup 32%nat) in HN by lia. discriminate.
Qed.

Lemma halving_loop_domain_witness :
  class_of_size 33 = Some 1 /\
  (forall fuel, halve_loop fuel (to_int32 24) 0 = None).
Proof.
  split.
  - apply (proj1 (halving_loop_domain 33)). split; [lia|reflexivity].
  - apply (proj2 (halving_loop_domain 24)). reflexivity.
Defined.

(** X3: when the header of the page of [ptr] carries the tag but a size on
    which the halving loop does not end, [xxfree] never returns; when the
    loop ends with an index of 8 or more (a size of 4096, say), [xxfree]
    indexes the table out of bounds. *)
Theorem xxfree_bad_header st ptr bs :
  0 < ptr < 2 ^ 63 -> tagged (heap st) (page_start ptr) bs -> bs <> 0 ->
  (class_of_size bs = None -> xxfree ptr st = Diverge) /\
  (forall a, class_of_size bs = Some a -> 8 <= a ->
             length (lists st) = 8%nat -> xxfree ptr st = Fault).
Proof.
  intros Hp Htag Hbs. rewrite (xxfree_tagged st ptr bs Hp Htag Hbs). split.
  - intros ->. reflexivity.
  - intros a -> Ha Hlen. unfold bind at 1. unfold terminating.
    unfold bind, read_list. destruct (Z.ltb_spec a 0); [reflexivity|].
    rewrite lookup_ge_None_2 by lia. reflexivity.
Qed.

Lemma xxfree_bad_header_witness :
  let hdr s := Mem.write (Mem.write (Mem.map_zero Mem.empty 65536 4096)
                            65536 4 MAGIC) 65544 8 s in
  xxfree 65600 (mkState (replicate 8 0) (hdr 24) []) = Diverge /\
  xxfree 65600 (mkState (replicate 8 0) (hdr 4096) []) = Fault.
Proof.
  cbv zeta. split.
  - apply (proj1 (xxfree_bad_header
                    (mkState (replicate 8 0)
                       (Mem.write (Mem.write (Mem.map_zero Mem.empty 65536 4096)
                                     65536 4 MAGIC) 65544 8 24) [])
                    65600 24 ltac:(lia) ltac:(split; reflexivity) ltac:(lia))).
    reflexivity.
  - apply (proj2 (xxfree_bad_header
                    (mkState (replicate 8 0)
                       (Mem.write (Mem.write (Mem.map_zero Mem.empty 65536 4096)
                                     65536 4 MAGIC) 65544 8 4096) [])
                    65600 4096 ltac:(lia) ltac:(split; reflexivity) ltac:(lia)) 8);
      [reflexivity|lia|reflexivity].
Defined.

(** ** Large objects *)

Lemma foreign_in_fresh_mapping st p len tr q :
  0 < p -> p mod PAGE_SIZE = 0 -> len mod PAGE_SIZE = 0 -> p + len <= 2 ^ 63 ->
  p <= q < p + len ->
  foreign (mkState (lists st) (Mem.map_zero (heap st) p len) tr) q.
Proof.
  unfold PAGE_SIZE. intros Hp Hpa Hla Hpu Hq. right. exists 0.
  split; [|vm_compute; discriminate].
  rewrite page_of_user by lia. cbn [heap]. unfold OFF_MAGIC.
  apply MemFacts.load_zero. intros x Hx. change (Z.of_nat 4) with 4 in Hx.
  apply MemFacts.map_zero_inside. unfold page_start, PAGE_SIZE in *.
  Z.div_mod_to_equations. lia.
Qed.

(** X4: a large object is never reclaimed: [xxfree] of the pointer returned
    for a request above 2048 bytes, or of any pointer into that mapping,
    returns with the state unchanged, the mapping still in place. *)
Theorem large_object_never_reclaimed e s st r st' :
  2048 < s < 2 ^ 64 ->
  valid_mmap (heap st) (request_len s) (mmap_result e) ->
  xxmalloc e s st = Ret r st' ->
  forall q, r <= q < r + s -> xxfree q st' = Ret tt st'.
Proof.
  intros Hs Hv Hrun q Hq.
  destruct (xxmalloc_large_inv e s st r st' ltac:(lia) Hrun) as (Hlen & He & ->).
  cbv zeta in *.
  pose proof (ROUND_UP_nonzero s ltac:(lia) Hlen) as Hup.
  destruct (ROUND_UP_page s ltac:(lia)) as (Hmod & Hle & _). cbv zeta in *.
  rewrite He in Hv. destruct Hv as (Hp & Hpa & Hpu & _).
  unfold request_len in *. destruct (Z.ltb_spec 2048 s); [|lia].
  apply xxfree_foreign. apply foreign_in_fresh_mapping; auto; lia.
Qed.

Lemma large_object_never_reclaimed_witness :
  let st' := after (xxmalloc (env_ok 65536) 5000 init) in
  xxfree 65536 st' = Ret tt st' /\ xxfree 70000 st' = Ret tt st'.
Proof.
  cbv zeta.
  assert (valid_mmap (heap init) (request_len 5000) (mmap_result (env_ok 65536))) as Hv.
  { split; [reflexivity|]. split; [reflexivity|]. split; [vm_compute; discriminate|].
    intros x _. reflexivity. }
  split.
  - apply (large_object_never_reclaimed (env_ok 65536) 5000 init 65536 _
             ltac:(lia) Hv eq_refl 65536). lia.
  - apply (large_object_never_reclaimed (env_ok 65536) 5000 init 65536 _
             ltac:(lia) Hv eq_refl 70000). lia.
Defined.

(** X5: a request within 4095 bytes of the top of [size_t] cannot be
    rounded up: the length passed to [mmap] wraps to 0, the mapping is
    refused and the process exits with status 2, whatever memory the system
    has. *)
Theorem huge_request_is_fatal e s st :
  2 ^ 64 - 4096 < s < 2 ^ 64 ->
  xxmalloc e s st =
  Exit 2 (mkState (lists st) (heap st)
            (logged e (failure_message s) ++ EvMmap 0 None :: trace st)).
Proof.
  intros Hs. rewrite xxmalloc_large by lia. cbv zeta.
  assert (ROUND_UP s PAGE_SIZE = 0) as ->.
  { unfold ROUND_UP, PAGE_SIZE, wrap64.
    destruct (Z.eqb_spec (s mod 4096) 0) as [E|E].
    - exfalso. Z.div_mod_to_equations. lia.
    - rewrite (Z.mod_small (4096 - s mod 4096)) by (Z.div_mod_to_equations; lia).
      assert (s + (4096 - s mod 4096) = 2 ^ 64) as ->; [|reflexivity].
      Z.div_mod_to_equations. lia. }
  reflexivity.
Qed.

Lemma huge_request_is_fatal_witness :
  xxmalloc (env_ok 65536) (2 ^ 64 - 1) init =
  Exit 2 (mkState (lists init) (heap init)
            (logged (env_ok 65536) (failure_message (2 ^ 64 - 1)) ++
             EvMmap 0 None :: trace init)).
Proof. apply huge_request_is_fatal. lia. Defined.

(** ** What the calls touch *)

Lemma xxmalloc_small_inv e s st r st' :
  s <= 2048 -> valid_mmap (heap st) PAGE_SIZE (mmap_result e) ->
  xxmalloc e s st = Ret r st' ->
  exists k h st1 nx,
    0 <= k <= 7 /\ round_power_2 s = Some (k + 4) /\
    lists st !! Z.to_nat k = Some h /\
    (if h =? 0 then refill e k (class_size k) st = Ret tt st1 else st1 = st) /\
    lists st1 !! Z.to_nat k = Some r /\ Mem.load (heap st1) r 8 = Some nx /\
    st' = mkState (<[Z.to_nat k := nx]> (lists st1)) (heap st1) (trace st1).
Proof.
  intros Hs Hv Hrun.
  destruct (round_power_2_small s Hs) as (k & Hk & Hr & _).
  rewrite (xxmalloc_small e s st k) in Hrun by assumption.
  apply bind_Ret_inv in Hrun. destruct Hrun as (h & s1 & Hread & Hrun).
  apply read_list_inv in Hread. destruct Hread as (-> & _ & Hh).
  apply bind_Ret_inv in Hrun. destruct Hrun as (u & st1 & Hfill & Hpop).
  apply pop_inv in Hpop. destruct Hpop as (nx & _ & Hr' & Hnx & ->).
  exists k, h, st1, nx. repeat (split; [assumption|]).
  split; [|auto]. destruct (h =? 0).
  - destruct u. exact Hfill.
  - unfold ret in Hfill. congruence.
Qed.

Lemma refill_extends e k st st1 :
  0 <= k <= 7 -> lists st !! Z.to_nat k = Some 0 ->
  valid_mmap (heap st) PAGE_SIZE (mmap_result e) ->
  refill e k (class_size k) st = Ret tt st1 ->
  Mem.extends (heap st) (heap st1) /\
  exists p, mmap_result e = Some p /\
    lists st1 = <[Z.to_nat k := p + class_size k]> (lists st) /\
    trace st1 = EvMmap PAGE_SIZE (Some p) :: trace st.
Proof.
  intros Hk Hh Hv Hfill.
  destruct (mmap_result e) as [p|] eqn:He;
    [|rewrite refill_fails in Hfill by assumption; discriminate].
  apply valid_mmap_page in Hv. destruct Hv as (Hp & Hpa & Hpu & Hfresh).
  destruct (refill_spec e k p st He Hp Hpa Hpu Hk (lookup_lt_Some _ _ _ Hh))
    as (st1' & Hfill' & Hl1 & Ht1 & Hframe & _).
  assert (st1' = st1) as -> by congruence.
  split; [|exists p; auto].
  intros x Hx. apply Hframe.
  destruct (Z.lt_ge_cases x p); [left; assumption|].
  destruct (Z.lt_ge_cases x (p + PAGE_SIZE)); [|right; assumption].
  exfalso. apply Hx. apply Hfresh. lia.
Qed.

Lemma xxmalloc_extends e s st r st' :
  valid_mmap (heap st) (request_len s) (mmap_result e) ->
  xxmalloc e s st = Ret r st' -> Mem.extends (heap st) (heap st').
Proof.
  intros Hv Hrun. unfold request_len in Hv.
  destruct (Z.ltb_spec 2048 s) as [Hl|Hsm].
  - destruct (xxmalloc_large_inv e s st r st' Hl Hrun) as (_ & He & ->).
    cbv zeta. rewrite He in Hv. destruct Hv as (_ & _ & _ & Hfresh).
    apply MemFacts.extends_map_zero. exact Hfresh.
  - destruct (xxmalloc_small_inv e s st r st' Hsm Hv Hrun)
      as (k & h & st1 & nx & Hk & _ & Hh & Hst1 & _ & _ & ->).
    cbn [heap]. destruct (Z.eqb_spec h 0) as [->|_].
    + apply (refill_extends e k st st1 Hk Hh Hv Hst1).
    + subst st1. apply MemFacts.extends_refl.
Qed.

Lemma xxmalloc_maps_only_region e s st r st' :
  valid_mmap (heap st) (request_len s) (mmap_result e) ->
  xxmalloc e s st = Ret r st' ->
  forall x, heap st x = None -> heap st' x <> None ->
    exists p, mmap_result e = Some p /\ p <= x < p + request_len s.
Proof.
  intros Hv Hrun x Hx Hx'. unfold request_len in *.
  destruct (Z.ltb_spec 2048 s) as [Hl|Hsm].
  - destruct (xxmalloc_large_inv e s st r st' Hl Hrun) as (_ & He & ->).
    cbv zeta in *. cbn [heap] in Hx'. exists r. split; [exact He|].
    destruct (Z.lt_ge_cases x r);
      [rewrite MemFacts.map_zero_outside in Hx' by lia; congruence|].
    destruct (Z.lt_ge_cases x (r + ROUND_UP s PAGE_SIZE)); [lia|].
    rewrite MemFacts.map_zero_outside in Hx' by lia. congruence.
  - destruct (xxmalloc_small_inv e s st r st' Hsm Hv Hrun)
      as (k & h & st1 & nx & Hk & _ & Hh & Hst1 & _ & _ & ->).
    cbn [heap] in Hx'. destruct (Z.eqb_spec h 0) as [->|_]; [|subst st1; congruence].
    destruct (mmap_result e) as [p|] eqn:He;
      [|rewrite refill_fails in Hst1 by assumption; discriminate].
    pose proof Hv as Hv'.
    apply valid_mmap_page in Hv'. destruct Hv' as (Hp & Hpa & Hpu & _).
    destruct (refill_spec e k p st He Hp Hpa Hpu Hk (lookup_lt_Some _ _ _ Hh))
      as (st1' & Hfill' & _ & _ & Hframe & _).
    assert (st1' = st1) as -> by congruence.
    exists p. split; [reflexivity|].
    destruct (Z.lt_ge_cases x p); [rewrite Hframe in Hx' by lia; congruence|].
    destruct (Z.lt_ge_cases x (p + PAGE_SIZE)); [lia|].
    rewrite Hframe in Hx' by lia. congruence.
Qed.

(** X6: [xxmalloc] never changes a byte that was mapped before the call, and
    maps nothing outside the region [mmap] has just given it: whatever it
    writes (a page header, the links of a new free list) goes into that
    region. *)
Theorem xxmalloc_preserves_memory e s st r st' :
  valid_mmap (heap st) (request_len s) (mmap_result e) ->
  xxmalloc e s st = Ret r st' ->
  (forall x, heap st x <> None -> heap st' x = heap st x) /\
  (forall x, heap st x = None -> heap st' x <> None ->
     exists p, mmap_result e = Some p /\ p <= x < p + request_len s).
Proof.
  intros Hv Hrun. split.
  - exact (xxmalloc_extends e s st r st' Hv Hrun).
  - exact (xxmalloc_maps_only_region e s st r st' Hv Hrun).
Qed.

Lemma valid_mmap_init len p :
  0 < p -> p mod PAGE_SIZE = 0 -> p + len <= 2 ^ 63 ->
  valid_mmap (heap init) len (Some p).
Proof. intros H1 H2 H3. repeat (split; [assumption|]). intros x _. reflexivity. Qed.


Lemma xxmalloc_preserves_memory_witness :
  let st := mkState (replicate 8 0) (Mem.map_zero Mem.empty 4096 4096) [] in
  let st' := after (xxmalloc (env_ok 65536) 1000 st) in
  (forall x, heap st x <> None -> heap st' x = heap st x) /\
  (forall x, heap st x = None -> heap st' x <> None ->
     exists p, Some 65536 = Some p /\ p <= x < p + request_len 1000).
Proof.
  cbv zeta.
  apply (xxmalloc_preserves_memory (env_ok 65536) 1000
           (mkState (replicate 8 0) (Mem.map_zero Mem.empty 4096 4096) []) 66560);
    [|reflexivity].
  split; [reflexivity|]. split; [reflexivity|]. split; [vm_compute; discriminate|].
  intros x Hx. change (request_len 1000) with 4096 in Hx. cbn [heap].
  rewrite MemFacts.map_zero_outside by lia. reflexivity.
Defined.

(** X7: [xxfree] of a pointer into a small block writes the first word of
    that block and nothing else, maps and unmaps nothing, makes no system
    call, and changes no list but that of the class, whose head becomes the
    start of the block. *)
Theorem xxfree_footprint st ptr k st' :
  0 < ptr < 2 ^ 64 -> 0 <= k <= 7 ->
  xxmalloc_usable_size ptr st = Ret (class_size k) st ->
  xxfree ptr st = Ret tt st' ->
  let p := ptr - ptr mod class_size k in
  (forall x, x < p \/ p + 8 <= x -> heap st' x = heap st x) /\
  (forall x, heap st' x <> None <-> heap st x <> None) /\
  (forall i, i <> Z.to_nat k -> lists st' !! i = lists st !! i) /\
  lists st' !! Z.to_nat k = Some p /\
  trace st' = trace st.
Proof.
  intros Hp Hk Hus Hrun.
  destruct (xxfree_small_inv st ptr k st' Hp Hk Hus Hrun) as (cur & Hcur & Hm & ->).
  cbv zeta. cbn [heap lists trace].
  split; [|split; [|split; [|split]]].
  - intros x Hx. apply MemFacts.write_outside. change (Z.of_nat 8) with 8. lia.
  - intros x.
    apply (MemFacts.store_keeps_mapped (heap st) (ptr - ptr mod class_size k) 8 cur).
    apply MemFacts.store_mapped_total. exact Hm.
  - intros i Hi. apply list_lookup_insert_ne. auto.
  - apply list_lookup_insert_eq. eapply lookup_lt_Some; eauto.
  - reflexivity.
Qed.

Lemma xxfree_footprint_witness :
  let st := after (xxmalloc (env_ok 65536) 2048 init) in
  let st' := after (xxfree 67590 st) in
  (forall x, x < 67584 \/ 67584 + 8 <= x -> heap st' x = heap st x) /\
  (forall x, heap st' x <> None <-> heap st x <> None) /\
  (forall i, i <> 7%nat -> lists st' !! i = lists st !! i) /\
  lists st' !! 7%nat = Some 67584 /\
  trace st' = trace st.
Proof.
  cbv zeta.
  apply (xxfree_footprint (after (xxmalloc (env_ok 65536) 2048 init)) 67590 7);
    try reflexivity; lia.
Defined.

(** X8: the header of a page is never rewritten: once a page carries the tag
    and a block size, [xxmalloc_usable_size] of a pointer into it gives that
    size after every [xxmalloc] and every [xxfree] of a releasable pointer. *)
Theorem usable_size_stable st q bs :
  0 < q < 2 ^ 63 -> tagged (heap st) (page_start q) bs ->
  (forall e s r st',
     valid_mmap (heap st) (request_len s) (mmap_result e) ->
     xxmalloc e s st = Ret r st' ->
     xxmalloc_usable_size q st' = Ret bs st') /\
  (forall ptr st',
     0 <= ptr < 2 ^ 63 -> releasable st ptr ->
     xxfree ptr st = Ret tt st' ->
     xxmalloc_usable_size q st' = Ret bs st').
Proof.
  intros Hq Htag. split.
  - intros e s r st' Hv Hrun. apply usable_size_tagged; [exact Hq|].
    eapply tagged_extends; [|exact Htag].
    exact (xxmalloc_extends e s st r st' Hv Hrun).
  - intros ptr st' Hptr [Hf|(k & Hk & Htag' & Hpast)] Hrun.
    + rewrite (xxfree_foreign st ptr Hf) in Hrun. injection Hrun as <-.
      apply usable_size_tagged; assumption.
    + pose proof (class_size_bounds k Hk) as Hbs.
      destruct (block_start_facts ptr k Hk ltac:(lia) Hpast)
        as (Hp & _ & _ & _ & Hlo & Hhi). cbv zeta in *.
      pose proof (usable_size_tagged st ptr _ ltac:(lia) Htag') as Hus.
      destruct (xxfree_small_inv st ptr k st' ltac:(lia) Hk Hus Hrun)
        as (cur & _ & _ & ->). cbv zeta.
      apply usable_size_tagged; [exact Hq|]. cbn [heap].
      apply header_untouched; auto. apply page_start_aligned.
Qed.

Lemma usable_size_stable_witness :
  let st := after (xxmalloc (env_ok 65536) 1024 init) in
  xxmalloc_usable_size 66560 (after (xxmalloc env_fail 1000 st)) =
    Ret 1024 (after (xxmalloc env_fail 1000 st)) /\
  xxmalloc_usable_size 66560 (after (xxfree 66570 st)) =
    Ret 1024 (after (xxfree 66570 st)).
Proof.
  cbv zeta.
  assert (tagged (heap (after (xxmalloc (env_ok 65536) 1024 init)))
            (page_start 66560) 1024) as Htag by (split; reflexivity).
  destruct (usable_size_stable _ 66560 1024 ltac:(lia) Htag) as [Hm Hf].
  split.
  - apply (Hm env_fail 1000 67584); [exact I|reflexivity].
  - apply (Hf 66570); [lia| |reflexivity].
    right. exists 6. split; [lia|]. split; [exact Htag|vm_compute; discriminate].
Defined.

Lemma same_block ptr ptr' k :
  0 <= k <= 7 -> 0 <= ptr ->
  ptr - ptr mod class_size k <= ptr' < ptr - ptr mod class_size k + class_size k ->
  ptr' - ptr' mod class_size k = ptr - ptr mod class_size k /\
  page_start ptr' = page_start ptr.
Proof.
  intros Hk Hp. unfold page_start, PAGE_SIZE.
  class_cases Hk;
    match goal with |- context [class_size ?i] =>
      let v := eval vm_compute in (class_size i) in change (class_size i) with v
    end;
    intros Hb; Z.div_mod_to_equations; lia.
Qed.

(** X9: [xxfree] takes a pointer anywhere inside the object: on every
    pointer into the same block of a tagged page it does what it does on the
    start of the block. *)
Theorem xxfree_interior_pointer st ptr ptr' k :
  0 < ptr < 2 ^ 63 -> 0 <= k <= 7 ->
  tagged (heap st) (page_start ptr) (class_size k) ->
  0 < ptr' ->
  ptr - ptr mod class_size k <= ptr' < ptr - ptr mod class_size k + class_size k ->
  xxfree ptr' st = xxfree ptr st.
Proof.
  intros Hptr Hk Htag Hpos Hin.
  pose proof (class_size_bounds k Hk) as Hbs.
  destruct (same_block ptr ptr' k Hk ltac:(lia) Hin) as [Hsame Hpg].
  assert (ptr' < 2 ^ 63) as Hlt.
  { pose proof (page_start_bounds ptr) as Hb. pose proof (page_start_bounds ptr') as Hb'.
    pose proof (page_start_aligned ptr) as Ha. rewrite Hpg in Hb'.
    unfold PAGE_SIZE in *. Z.div_mod_to_equations. lia. }
  rewrite (xxfree_small st ptr k) by (try apply usable_size_tagged; auto; lia).
  rewrite (xxfree_small st ptr' k);
    [|lia|assumption|apply usable_size_tagged; [lia|rewrite Hpg; assumption]].
  rewrite Hsame. reflexivity.
Qed.

Lemma xxfree_interior_pointer_witness :
  let st := after (xxmalloc (env_ok 65536) 1024 init) in
  xxfree 67000 st = xxfree 66560 st.
Proof.
  cbv zeta.
  apply (xxfree_interior_pointer _ 66560 67000 6); try lia.
  - split; reflexivity.
  - vm_compute. split; [discriminate|reflexivity].
Defined.

(** ** Misuse the code does not detect *)

(** X10: a double free is not detected: when the same small block is freed
    twice in a row, its [next] field points to the block itself, and from
    then on every request of that class returns that same block and leaves
    the state as it is. *)
Theorem double_free_repeats_block st ptr k st1 :
  0 <= ptr < 2 ^ 63 -> 0 <= k <= 7 ->
  tagged (heap st) (page_start ptr) (class_size k) ->
  class_size k <= ptr mod PAGE_SIZE ->
  xxfree ptr st = Ret tt st1 ->
  exists st2,
    xxfree ptr st1 = Ret tt st2 /\
    forall e s, s <= 2048 -> round_power_2 s = Some (k + 4) ->
      xxmalloc e s st2 = Ret (ptr - ptr mod class_size k) st2.
Proof.
  intros Hptr Hk Htag Hpast Hrun.
  pose proof (class_size_bounds k Hk) as Hbs.
  destruct (block_start_facts ptr k Hk ltac:(lia) Hpast)
    as (Hp & _ & _ & _ & Hlo & Hhi). cbv zeta in *.
  assert (0 < ptr) as Hpos by lia.
  pose proof (usable_size_tagged st ptr _ ltac:(lia) Htag) as Hus.
  destruct (xxfree_small_inv st ptr k st1 ltac:(lia) Hk Hus Hrun)
    as (cur & Hcur & Hmp & ->). cbv zeta in *.
  set (p := ptr - ptr mod class_size k) in *.
  set (st1 := mkState (<[Z.to_nat k := p]> (lists st)) (Mem.write (heap st) p 8 cur) (trace st)).
  assert (tagged (heap st1) (page_start ptr) (class_size k)) as Htag1.
  { apply header_untouched; auto. apply page_start_aligned. }
  assert (lists st1 !! Z.to_nat k = Some p) as Hhead1.
  { apply list_lookup_insert_eq. eapply lookup_lt_Some; eauto. }
  assert (Mem.mapped (heap st1) p 8 = true) as Hmp1.
  { apply write_keeps_mapped; assumption. }
  set (st2 := mkState (<[Z.to_nat k := p]> (lists st1)) (Mem.write (heap st1) p 8 p) (trace st1)).
  exists st2. split.
  - rewrite (xxfree_small st1 ptr k ltac:(lia) Hk
               (usable_size_tagged st1 ptr _ ltac:(lia) Htag1)).
    fold p.
    rewrite (bind_Ret _ _ _ _ _ (read_list_lookup k st1 p ltac:(lia) Hhead1)).
    rewrite (bind_Ret _ _ _ tt _
               (write_list_in_bounds k p st1 ltac:(lia) (lookup_lt_Some _ _ _ Hhead1))).
    unfold store64. rewrite store_mem_mapped by exact Hmp1. reflexivity.
  - intros e s Hs Hr.
    assert (lists st2 !! Z.to_nat k = Some p) as Hhead2.
    { apply list_lookup_insert_eq. eapply lookup_lt_Some; eauto. }
    assert (Mem.load (heap st2) p 8 = Some p) as Hnx.
    { apply MemFacts.load_write_same. change (256 ^ Z.of_nat 8) with (2 ^ 64). lia. }
    rewrite (xxmalloc_small e s st2 k) by assumption.
    rewrite (bind_Ret _ _ _ _ _ (read_list_lookup k st2 p ltac:(lia) Hhead2)).
    destruct (Z.eqb_spec p 0); [lia|].
    unfold ret at 1. unfold bind at 1.
    rewrite (pop_spec k st2 p p ltac:(lia) Hhead2 Hnx).
    rewrite (list_insert_id _ _ _ Hhead2). reflexivity.
Qed.

Lemma double_free_repeats_block_witness :
  let st := after (xxmalloc (env_ok 65536) 1024 init) in
  let st1 := after (xxfree 66560 st) in
  exists st2,
    xxfree 66560 st1 = Ret tt st2 /\
    forall e s, s <= 2048 -> round_power_2 s = Some (6 + 4) ->
      xxmalloc e s st2 = Ret (66560 - 66560 mod class_size 6) st2.
Proof.
  cbv zeta.
  apply (double_free_repeats_block (after (xxmalloc (env_ok 65536) 1024 init)) 66560 6);
    try lia; try reflexivity.
  split; reflexivity.
Defined.

Lemma byte_of_low v j :
  0 <= j < 4 -> Mem.byte_of (v mod 2 ^ 32) j = Mem.byte_of v j.
Proof.
  intros Hj. unfold Mem.byte_of.
  assert (j = 0 \/ j = 1 \/ j = 2 \/ j = 3) as [->|[->|[->| ->]]] by lia;
    match goal with |- context [256 ^ ?c] =>
      let v := eval vm_compute in (256 ^ c) in change (256 ^ c) with v
    end;
    change (2 ^ 32) with 4294967296; Z.div_mod_to_equations; lia.
Qed.

(** The low half of a pointer-sized store, read back as an [int]-sized
    value. *)
Lemma load_low_half m a v :
  Mem.load (Mem.write m a 8 v) a 4 = Some (v mod 2 ^ 32).
Proof.
  apply MemFacts.load_bytes.
  - change (256 ^ Z.of_nat 4) with (2 ^ 32). apply Z.mod_pos_bound. lia.
  - intros j Hj. change (Z.of_nat 4) with 4 in Hj. unfold Mem.write.
    replace (Mem.in_range a (Z.of_nat 8) (a + j)) with true
      by (symmetry; apply MemFacts.in_range_true; change (Z.of_nat 8) with 8; lia).
    rewrite byte_of_low by lia. do 2 f_equal. ring.
Qed.

Lemma aligned_not_magic cur :
  cur mod 16 = 0 -> to_int32 (cur mod 2 ^ 32) <> MAGIC.
Proof.
  intros Hc H. apply to_int32_eq_small in H.
  - unfold MAGIC in H. change (2 ^ 32) with 4294967296 in H.
    Z.div_mod_to_equations. lia.
  - apply Z.mod_pos_bound. lia.
  - vm_compute. split; [discriminate|reflexivity].
Qed.

(** X11: [xxfree] does not check that the pointer is past the header block:
    on a pointer into block 0 of a carved page it puts the page start on the
    free list and overwrites the tag with the old list head, after which no
    pointer into that page is recognised any more ([xxmalloc_usable_size]
    gives 0 and [xxfree] does nothing). *)
Theorem header_block_release_disowns_page st ptr k st' :
  Inv st -> 0 < ptr < 2 ^ 63 -> 0 <= k <= 7 ->
  tagged (heap st) (page_start ptr) (class_size k) ->
  ptr mod PAGE_SIZE < class_size k ->
  xxfree ptr st = Ret tt st' ->
  lists st' !! Z.to_nat k = Some (page_start ptr) /\
  forall q, 0 < q < 2 ^ 63 -> page_start q = page_start ptr ->
    xxmalloc_usable_size q st' = Ret 0 st' /\ xxfree q st' = Ret tt st'.
Proof.
  intros HI Hptr Hk Htag Hin Hrun.
  pose proof (usable_size_tagged st ptr _ Hptr Htag) as Hus.
  destruct (xxfree_small_inv st ptr k st' ltac:(lia) Hk Hus Hrun)
    as (cur & Hcur & Hmp & ->). cbv zeta in *.
  assert (ptr - ptr mod class_size k = page_start ptr) as Hpg.
  { revert Hin. unfold page_start, PAGE_SIZE.
    class_cases Hk;
      match goal with |- context [class_size ?i] =>
        let v := eval vm_compute in (class_size i) in change (class_size i) with v
      end;
      intros Hb; Z.div_mod_to_equations; lia. }
  rewrite Hpg in *.
  assert (cur mod 16 = 0) as Hc16.
  { destruct (Inv_head st _ cur HI Hcur) as [->|Hok]; [reflexivity|].
    rewrite Z2Nat.id in Hok by lia.
    eapply aligned_16; [exact Hk|]. exact (node_aligned _ _ _ Hok). }
  split.
  - cbn [lists]. apply list_lookup_insert_eq. eapply lookup_lt_Some; eauto.
  - intros q Hq Hqpg.
    assert (foreign (mkState (<[Z.to_nat k := page_start ptr]> (lists st))
                       (Mem.write (heap st) (page_start ptr) 8 cur) (trace st)) q) as Hf.
    { right. exists (cur mod 2 ^ 32). split; [|apply aligned_not_magic; exact Hc16].
      rewrite page_of_user by lia. rewrite Hqpg. cbn [heap]. unfold OFF_MAGIC.
      rewrite Z.add_0_r. apply load_low_half. }
    split; [apply usable_size_foreign|apply xxfree_foreign]; exact Hf.
Qed.

Lemma header_block_release_disowns_page_witness :
  let st := after (xxmalloc (env_ok 65536) 1024 init) in
  let st' := after (xxfree 65540 st) in
  lists st' !! 6%nat = Some 65536 /\
  forall q, 0 < q < 2 ^ 63 -> page_start q = page_start 65540 ->
    xxmalloc_usable_size q st' = Ret 0 st' /\ xxfree q st' = Ret tt st'.
Proof.
  cbv zeta.
  assert (Inv (after (xxmalloc (env_ok 65536) 1024 init))) as HI.
  { apply (Inv_xxmalloc (env_ok 65536) 1024 init 66560); [apply Inv_init|lia| |reflexivity].
    apply valid_mmap_init; [reflexivity|reflexivity|vm_compute; discriminate]. }
  apply (header_block_release_disowns_page _ 65540 6 _ HI); try lia; try reflexivity.
  split; reflexivity.
Defined.

(** ** Round trips *)

Lemma xxmalloc_nonempty e s st k h nx :
  s <= 2048 -> 0 <= k <= 7 -> round_power_2 s = Some (k + 4) ->
  lists st !! Z.to_nat k = Some h -> h <> 0 ->
  Mem.load (heap st) h 8 = Some nx ->
  xxmalloc e s st =
  Ret h (mkState (<[Z.to_nat k := nx]> (lists st)) (heap st) (trace st)).
Proof.
  intros Hs Hk Hr Hh Hne Hnx.
  rewrite (xxmalloc_small e s st k) by assumption.
  rewrite (bind_Ret _ _ _ _ _ (read_list_lookup k st h ltac:(lia) Hh)).
  destruct (Z.eqb_spec h 0); [contradiction|].
  unfold ret at 1. unfold bind at 1.
  apply pop_spec; auto. lia.
Qed.

(** The [next] field of a node of a well-formed list is a pointer. *)
Lemma Inv_next_range st i h nx :
  Inv st -> lists st !! i = Some h -> h <> 0 ->
  Mem.load (heap st) h 8 = Some nx -> 0 <= nx < 2 ^ 63.
Proof.
  intros [_ H] Hh Hne Hnx.
  destruct (Z.eq_dec nx 0) as [->|Hnz]; [lia|].
  assert (reach (heap st) h nx) as Hr.
  { eapply reach_next; [apply reach_head; exact Hne|exact Hnx|exact Hnz]. }
  pose proof (node_range _ _ _ (H i h nx Hh Hr)). lia.
Qed.

(** X12: allocating the head of a non-empty list and releasing it at once
    is a round trip: the block is back at the head of its list in front of
    the same [next], the table is as it was, no system call was made and no
    byte outside the first word of the block was written. *)
Theorem allocate_then_release st e s k h :
  Inv st -> s <= 2048 -> 0 <= k <= 7 -> round_power_2 s = Some (k + 4) ->
  lists st !! Z.to_nat k = Some h -> h <> 0 ->
  exists st1 st2,
    xxmalloc e s st = Ret h st1 /\ xxfree h st1 = Ret tt st2 /\
    lists st2 = lists st /\ trace st2 = trace st /\
    Mem.load (heap st2) h 8 = Mem.load (heap st) h 8 /\
    forall x, x < h \/ h + 8 <= x -> heap st2 x = heap st x.
Proof.
  intros HI Hs Hk Hr Hh Hne.
  pose proof (class_size_bounds k Hk) as Hbs.
  destruct (Inv_head st _ h HI Hh) as [->|Hok]; [contradiction|].
  rewrite Z2Nat.id in Hok by lia.
  destruct Hok as [Hrange Hal Hmp Htag].
  destruct (mapped_load_some _ _ _ Hmp) as [nx Hnx].
  pose proof (Inv_next_range st _ h nx HI Hh Hne Hnx) as Hnxr.
  set (st1 := mkState (<[Z.to_nat k := nx]> (lists st)) (heap st) (trace st)).
  assert (lists st1 !! Z.to_nat k = Some nx) as Hh1.
  { apply list_lookup_insert_eq. eapply lookup_lt_Some; eauto. }
  exists st1, (mkState (<[Z.to_nat k := h]> (lists st1)) (Mem.write (heap st1) h 8 nx) (trace st1)).
  split; [apply xxmalloc_nonempty; assumption|]. split; [|split; [|split; [|split]]].
  - rewrite (xxfree_small st1 h k ltac:(lia) Hk
               (usable_size_tagged st1 h _ Hrange Htag)).
    rewrite Hal, Z.sub_0_r.
    rewrite (bind_Ret _ _ _ _ _ (read_list_lookup k st1 nx ltac:(lia) Hh1)).
    rewrite (bind_Ret _ _ _ tt _
               (write_list_in_bounds k h st1 ltac:(lia) (lookup_lt_Some _ _ _ Hh1))).
    unfold store64. rewrite store_mem_mapped by exact Hmp. reflexivity.
  - cbn [lists st1]. rewrite list_insert_insert_eq. apply list_insert_id. exact Hh.
  - reflexivity.
  - cbn [heap st1]. rewrite Hnx. apply MemFacts.load_write_same.
    change (256 ^ Z.of_nat 8) with (2 ^ 64). lia.
  - intros x Hx. cbn [heap st1]. apply MemFacts.write_outside.
    change (Z.of_nat 8) with 8. lia.
Qed.

Lemma allocate_then_release_witness :
  let st := after (xxmalloc (env_ok 65536) 1024 init) in
  exists st1 st2,
    xxmalloc env_fail 1024 st = Ret 67584 st1 /\ xxfree 67584 st1 = Ret tt st2 /\
    lists st2 = lists st /\ trace st2 = trace st /\
    Mem.load (heap st2) 67584 8 = Mem.load (heap st) 67584 8 /\
    forall x, x < 67584 \/ 67584 + 8 <= x -> heap st2 x = heap st x.
Proof.
  cbv zeta.
  assert (Inv (after (xxmalloc (env_ok 65536) 1024 init))) as HI.
  { apply (Inv_xxmalloc (env_ok 65536) 1024 init 66560); [apply Inv_init|lia| |reflexivity].
    apply valid_mmap_init; [reflexivity|reflexivity|vm_compute; discriminate]. }
  apply (allocate_then_release _ env_fail 1024 6 67584 HI); try reflexivity; lia.
Defined.

(** X13: releasing a small block and allocating from its class at once is
    a round trip on the table: the request returns the start of the block
    just freed, every list is as before the release and no system call was
    made. *)
Theorem release_then_allocate st ptr k st1 e s :
  Inv st -> 0 < ptr < 2 ^ 63 -> 0 <= k <= 7 ->
  tagged (heap st) (page_start ptr) (class_size k) ->
  class_size k <= ptr mod PAGE_SIZE ->
  xxfree ptr st = Ret tt st1 ->
  s <= 2048 -> round_power_2 s = Some (k + 4) ->
  exists st2,
    xxmalloc e s st1 = Ret (ptr - ptr mod class_size k) st2 /\
    lists st2 = lists st /\ trace st2 = trace st /\ heap st2 = heap st1.
Proof.
  intros HI Hptr Hk Htag Hpast Hrun Hs Hr.
  destruct (block_start_facts ptr k Hk ltac:(lia) Hpast) as (Hp & _). cbv zeta in *.
  pose proof (usable_size_tagged st ptr _ Hptr Htag) as Hus.
  destruct (xxfree_small_inv st ptr k st1 ltac:(lia) Hk Hus Hrun)
    as (cur & Hcur & Hmp & ->). cbv zeta in *.
  set (p := ptr - ptr mod class_size k) in *.
  assert (0 <= cur < 2 ^ 64) as Hcr.
  { destruct (Inv_head st _ cur HI Hcur) as [->|Hok]; [lia|].
    pose proof (node_range _ _ _ Hok). lia. }
  eexists. split; [|split; [|split]].
  - apply (xxmalloc_nonempty e s _ k p cur); auto; try lia.
    + cbn [lists]. apply list_lookup_insert_eq. eapply lookup_lt_Some; eauto.
    + cbn [heap]. apply MemFacts.load_write_same.
      change (256 ^ Z.of_nat 8) with (2 ^ 64). lia.
  - cbn [lists]. rewrite list_insert_insert_eq. apply list_insert_id. exact Hcur.
  - reflexivity.
  - reflexivity.
Qed.

Lemma release_then_allocate_witness :
  let st := after (xxmalloc (env_ok 65536) 1024 init) in
  let st1 := after (xxfree 66570 st) in
  exists st2,
    xxmalloc env_fail 1000 st1 = Ret (66570 - 66570 mod class_size 6) st2 /\
    lists st2 = lists st /\ trace st2 = trace st /\ heap st2 = heap st1.
Proof.
  cbv zeta.
  assert (Inv (after (xxmalloc (env_ok 65536) 1024 init))) as HI.
  { apply (Inv_xxmalloc (env_ok 65536) 1024 init 66560); [apply Inv_init|lia| |reflexivity].
    apply valid_mmap_init; [reflexivity|reflexivity|vm_compute; discriminate]. }
  apply (release_then_allocate _ 66570 6 _ env_fail 1000 HI); try lia; try reflexivity.
  - split; reflexivity.
  - vm_compute. discriminate.
Defined.

(** X14: as long as the list of the class is not empty, [xxmalloc] does not
    consult the page source: its outcome is the same whatever [mmap] would
    answer; it returns the head of the list, writes no memory and makes no
    system call. *)
Theorem nonempty_list_needs_no_page st s k h :
  s <= 2048 -> 0 <= k <= 7 -> round_power_2 s = Some (k + 4) ->
  lists st !! Z.to_nat k = Some h -> h <> 0 ->
  (forall e e', xxmalloc e s st = xxmalloc e' s st) /\
  (forall e r st', xxmalloc e s st = Ret r st' ->
     r = h /\ heap st' = heap st /\ trace st' = trace st).
Proof.
  intros Hs Hk Hr Hh Hne.
  assert (forall e, xxmalloc e s st = pop k st) as Hpop.
  { intros e. rewrite (xxmalloc_small e s st k) by assumption.
    rewrite (bind_Ret _ _ _ _ _ (read_list_lookup k st h ltac:(lia) Hh)).
    destruct (Z.eqb_spec h 0); [contradiction|]. reflexivity. }
  split.
  - intros e e'. rewrite !Hpop. reflexivity.
  - intros e r st' Hrun. rewrite Hpop in Hrun.
    apply pop_inv in Hrun. destruct Hrun as (nx & _ & Hh' & _ & ->).
    split; [congruence|]. split; reflexivity.
Qed.

Lemma nonempty_list_needs_no_page_witness :
  let st := after (xxmalloc (env_ok 65536) 1024 init) in
  (forall e e', xxmalloc e 1024 st = xxmalloc e' 1024 st) /\
  (forall e r st', xxmalloc e 1024 st = Ret r st' ->
     r = 67584 /\ heap st' = heap st /\ trace st' = trace st).
Proof.
  cbv zeta.
  apply (nonempty_list_needs_no_page _ 1024 6 67584); try reflexivity; lia.
Defined.

(** ** One page, all its blocks *)

Lemma pop_chain e s k p st0 :
  s <= 2048 -> 0 <= k <= 7 -> round_power_2 s = Some (k + 4) -> 0 < p ->
  let bs := class_size k in
  let n := PAGE_SIZE / bs in
  (forall j, 1 <= j < n ->
     Mem.load (heap st0) (p + j * bs) 8 =
     Some (if j =? n - 1 then 0 else p + (j + 1) * bs)) ->
  forall cnt j l,
    1 <= j <= n - 1 -> Z.of_nat cnt = n - j ->
    l !! Z.to_nat k = Some (p + j * bs) ->
    xxmalloc_seq e s cnt (mkState l (heap st0) (trace st0)) =
    Ret (map (fun i : nat => p + Z.of_nat i * bs) (seq (Z.to_nat j) cnt))
        (mkState (<[Z.to_nat k := 0]> l) (heap st0) (trace st0)).
Proof.
  intros Hs Hk Hr Hp bs n Hld.
  pose proof (class_size_bounds k Hk) as Hbs. fold bs in Hbs.
  induction cnt as [|cnt IH]; intros j l Hj Hc Hh; [lia|].
  assert (0 < j * bs) by nia.
  cbn [xxmalloc_seq].
  rewrite (bind_Ret _ _ _ _ _
             (xxmalloc_nonempty e s (mkState l (heap st0) (trace st0)) k (p + j * bs) _
                Hs Hk Hr Hh ltac:(lia) (Hld j ltac:(lia)))).
  cbn [lists heap trace].
  destruct (Z.eqb_spec j (n - 1)) as [E|E].
  - assert (cnt = O) as -> by lia. cbn [xxmalloc_seq seq map]. unfold ret, bind.
    rewrite Z2Nat.id by lia. reflexivity.
  - rewrite (bind_Ret _ _ _ _ _ (IH (j + 1) _ ltac:(lia) ltac:(lia)
               ltac:(apply list_lookup_insert_eq; eapply lookup_lt_Some; eauto))).
    unfold ret. rewrite list_insert_insert_eq. cbn [seq map].
    rewrite Z2Nat.id by lia.
    replace (Z.to_nat (j + 1)) with (S (Z.to_nat j)) by lia. reflexivity.
Qed.

(** X15: a page carved for an empty list serves exactly its [n - 1] blocks
    (n = 4096 / block size): [n - 1] requests of the class in a row return
    blocks 1 .. n-1 of the page in address order, with a single call to
    [mmap]; then the list is empty again, the table is as before and the
    next request has to ask for a page. *)
Theorem fresh_page_serves_its_blocks e s k p st :
  s <= 2048 -> 0 <= k <= 7 -> round_power_2 s = Some (k + 4) ->
  lists st !! Z.to_nat k = Some 0 ->
  mmap_result e = Some p -> valid_mmap (heap st) PAGE_SIZE (Some p) ->
  let bs := class_size k in
  let n := PAGE_SIZE / bs in
  exists st',
    xxmalloc_seq e s (Z.to_nat (n - 1)) st =
    Ret (map (fun i : nat => p + Z.of_nat i * bs) (seq 1 (Z.to_nat (n - 1)))) st' /\
    lists st' = lists st /\
    mmap_requests (trace st') = PAGE_SIZE :: mmap_requests (trace st) /\
    needs_page s st'.
Proof.
  intros Hs Hk Hr Hh He Hv. cbv zeta.
  apply valid_mmap_page in Hv. destruct Hv as (Hp & Hpa & Hpu & _).
  destruct (refill_spec e k p st He Hp Hpa Hpu Hk (lookup_lt_Some _ _ _ Hh))
    as (st1 & Hfill & Hl1 & Ht1 & _ & _ & _ & Hld). cbv zeta in Hld.
  destruct (blocks_per_page k Hk) as (Hbs & Hn & Hnbs & _). cbv zeta in *.
  set (bs := class_size k) in *. set (n := PAGE_SIZE / bs) in *.
  assert (lists st1 !! Z.to_nat k = Some (p + 1 * bs)) as Hh1.
  { rewrite Hl1, Z.mul_1_l. apply list_lookup_insert_eq. eapply lookup_lt_Some; eauto. }
  (* the first request carves, then behaves as on the carved state *)
  assert (xxmalloc e s st = xxmalloc e s st1) as Hfirst.
  { rewrite (xxmalloc_nonempty e s st1 k (p + 1 * bs) _ Hs Hk Hr Hh1 ltac:(lia)
               (Hld 1 ltac:(lia))).
    rewrite (xxmalloc_small e s st k) by assumption.
    rewrite (bind_Ret _ _ _ _ _ (read_list_lookup k st 0 ltac:(lia) Hh)).
    change (0 =? 0) with true. cbv iota. fold bs.
    rewrite (bind_Ret _ _ _ _ _ Hfill).
    apply pop_spec; [lia|exact Hh1|]. apply (Hld 1). lia. }
  destruct (Z.to_nat (n - 1)) as [|c] eqn:Ec; [lia|].
  assert (xxmalloc_seq e s (S c) st = xxmalloc_seq e s (S c) st1) as ->.
  { cbn [xxmalloc_seq]. unfold bind. rewrite Hfirst. reflexivity. }
  replace st1 with (mkState (lists st1) (heap st1) (trace st1)) by (destruct st1; reflexivity).
  pose proof (pop_chain e s k p st1 Hs Hk Hr Hp Hld (S c) 1 (lists st1)) as Hchain.
  cbv zeta in Hchain. fold bs in Hchain. fold n in Hchain.
  rewrite Hchain by (lia || exact Hh1).
  eexists. split; [reflexivity|]. cbn [lists trace].
  split; [|split].
  - rewrite Hl1, list_insert_insert_eq. apply list_insert_id. exact Hh.
  - rewrite Ht1. reflexivity.
  - right. exists k. split; [exact Hk|]. split; [exact Hr|]. cbn [lists].
    apply list_lookup_insert_eq. rewrite Hl1, length_insert. eapply lookup_lt_Some; eauto.
Qed.

Lemma fresh_page_serves_its_blocks_witness :
  exists st',
    xxmalloc_seq (env_ok 65536) 1000 3 init = Ret [66560; 67584; 68608] st' /\
    lists st' = lists init /\
    mmap_requests (trace st') = [4096] /\
    needs_page 1000 st'.
Proof.
  apply (fresh_page_serves_its_blocks (env_ok 65536) 1000 6 65536 init);
    try reflexivity; try lia.
  apply valid_mmap_init; [reflexivity|reflexivity|vm_compute; discriminate].
Defined.

(** ** The message buffer of [log_message] *)

Lemma message_length_prefix pre rest : forall done fuel,
  (forall c, In c pre -> c <> NUL) ->
  (length pre < fuel)%nat ->
  message_length fuel (done ++ pre ++ NUL :: rest) (length done) =
  Some (length done + length pre)%nat.
Proof.
  induction pre as [|c pre IH]; intros done fuel Hpre Hfuel.
  - destruct fuel as [|f]; [simpl in Hfuel; lia|].
    cbn [message_length app]. rewrite list_lookup_middle by reflexivity.
    rewrite Ascii.eqb_refl. f_equal. simpl. lia.
  - destruct fuel as [|f]; [simpl in Hfuel; lia|].
    cbn [message_length]. change ((c :: pre) ++ NUL :: rest) with (c :: (pre ++ NUL :: rest)).
    rewrite list_lookup_middle by reflexivity.
    destruct (Ascii.eqb_spec c NUL) as [E|_].
    + exfalso. apply (Hpre c); [left; reflexivity|exact E].
    + replace (done ++ c :: pre ++ NUL :: rest)
        with ((done ++ [c]) ++ pre ++ NUL :: rest)
        by (rewrite <- app_assoc; reflexivity).
      replace (S (length done)) with (length (done ++ [c]))
        by (rewrite length_app; simpl; lia).
      rewrite IH.
      * f_equal. rewrite length_app. simpl. lia.
      * intros d Hd. apply Hpre. right. exact Hd.
      * simpl in Hfuel. lia.
Qed.

Lemma message_length_unterminated message : forall fuel len,
  (forall c, In c message -> c <> NUL) ->
  message_length fuel message len = None.
Proof.
  induction fuel as [|f IH]; intros len Hno; [reflexivity|].
  cbn [message_length]. destruct (message !! len) as [c|] eqn:E; [|reflexivity].
  destruct (Ascii.eqb_spec c NUL) as [->|_].
  - exfalso. apply (Hno NUL); [|reflexivity].
    apply list_elem_of_In. eapply list_elem_of_lookup_2. exact E.
  - apply IH. exact Hno.
Qed.

(** X16: [log_message] writes the characters of its buffer up to the first
    terminator and nothing after it: on a buffer that holds a message
    without NUL, then a NUL, then anything, it does what the model of the
    claims does on the message; on a buffer without a terminator the length
    loop reads past the end of the buffer. *)
Theorem log_message_buffer_spec e :
  (forall msg rest,
     (forall c, In c (list_ascii_of_string msg) -> c <> NUL) ->
     log_message_buffer e (list_ascii_of_string msg ++ NUL :: rest) = log_message e msg) /\
  (forall message st,
     (forall c, In c message -> c <> NUL) ->
     log_message_buffer e message st = Fault).
Proof.
  split.
  - intros msg rest Hno. unfold log_message_buffer.
    pose proof (message_length_prefix (list_ascii_of_string msg) rest []
                  (S (length (list_ascii_of_string msg ++ NUL :: rest))) Hno) as H.
    cbn [app length Nat.add] in H. rewrite H.
    + rewrite take_app_length, string_of_list_ascii_of_string. reflexivity.
    + rewrite length_app. lia.
  - intros message st Hno. unfold log_message_buffer.
    rewrite message_length_unterminated by exact Hno. reflexivity.
Qed.

Lemma log_message_buffer_spec_witness :
  log_message_buffer env_fail
    (list_ascii_of_string "mmap failed" ++ NUL :: list_ascii_of_string "junk") =
  log_message env_fail "mmap failed" /\
  log_message_buffer env_fail (list_ascii_of_string "no end") init = Fault.
Proof.
  split.
  - apply (proj1 (log_message_buffer_spec env_fail) "mmap failed"%string).
    intros c Hc. simpl in Hc.
    repeat (destruct Hc as [<-|Hc]; [discriminate|]). destruct Hc.
  - apply (proj2 (log_message_buffer_spec env_fail)).
    intros c Hc. simpl in Hc.
    repeat (destruct Hc as [<-|Hc]; [discriminate|]). destruct Hc.
Defined.

(** ** Block 0 stays out of the lists *)

(** Where the nodes of the lists come from after a push by [xxfree]: the
    block just pushed, or a node that was on the same list before. *)
Lemma reach_after_push st k p cur i h' a :
  Inv st -> 0 <= k <= 7 -> lists st !! Z.to_nat k = Some cur ->
  p mod 16 = 0 -> tagged (heap st) (page_start p) (class_size k) ->
  <[Z.to_nat k := p]> (lists st) !! i = Some h' ->
  reach (Mem.write (heap st) p 8 cur) h' a ->
  (a = p /\ i = Z.to_nat k) \/
  (exists h, lists st !! i = Some h /\ reach (heap st) h a).
Proof.
  intros HI Hk Hcur Hp16 Htag Hi Hr. pose proof HI as [Hlen H].
  set (m := heap st) in *.
  assert (0 <= cur < 256 ^ Z.of_nat 8) as Hcur_range.
  { change (256 ^ Z.of_nat 8) with (2 ^ 64).
    destruct (Inv_head st _ cur HI Hcur) as [->|Hok]; [lia|].
    pose proof (node_range _ _ _ Hok). lia. }
  assert (0 <= Z.of_nat i <= 7) as Hi7.
  { apply lookup_lt_Some in Hi. rewrite length_insert in Hi. lia. }
  destruct (Nat.eq_dec i (Z.to_nat k)) as [->|Hne].
  - rewrite list_lookup_insert_eq in Hi by (eapply lookup_lt_Some; eauto).
    injection Hi as <-.
    assert (a = p \/ reach m cur a) as [->|Hra]; [|left; auto|right; eauto].
    induction Hr as [Hh|a b Ha IH Hb Hb0]; [left; reflexivity|].
    destruct (Z.eq_dec a p) as [->|Hap].
    + rewrite MemFacts.load_write_same in Hb by exact Hcur_range.
      injection Hb as <-. right. apply reach_head. assumption.
    + destruct IH as [->|Hra]; [contradiction|]. right.
      assert (node_ok m k a) as Hok.
      { rewrite <- (Z2Nat.id k) by lia. exact (H _ cur a Hcur Hra). }
      rewrite load_other_node in Hb; auto.
      * eapply reach_next; eauto.
      * eapply aligned_16; [exact Hk|]. exact (node_aligned _ _ _ Hok).
  - rewrite list_lookup_insert_ne in Hi by auto.
    right. exists h'. split; [exact Hi|].
    induction Hr as [Hh|a b Ha IH Hb Hb0]; [apply reach_head; assumption|].
    pose proof (H i h' a Hi IH) as Hok.
    assert (a <> p) as Hap.
    { intros ->. apply Hne.
      pose proof (tagged_size_unique _ _ _ _ (node_tagged _ _ _ Hok) Htag) as Heq.
      apply class_size_inj in Heq; lia. }
    rewrite load_other_node in Hb; auto.
    + eapply reach_next; eauto.
    + eapply aligned_16; [exact Hi7|]. exact (node_aligned _ _ _ Hok).
Qed.

Lemma block_start_past_header ptr k :
  0 <= k <= 7 -> 0 <= ptr -> class_size k <= ptr mod PAGE_SIZE ->
  class_size k <= (ptr - ptr mod class_size k) mod PAGE_SIZE.
Proof.
  intros Hk Hp. unfold PAGE_SIZE.
  class_cases Hk;
    match goal with |- context [class_size ?i] =>
      let v := eval vm_compute in (class_size i) in change (class_size i) with v
    end;
    intros Hb; Z.div_mod_to_equations; lia.
Qed.

Lemma past_header_init : past_header init.
Proof.
  intros i h a Hl Hr. exfalso.
  apply lookup_replicate in Hl. destruct Hl as [-> _].
  exact (reach_null _ _ Hr).
Qed.

Lemma past_header_extends st m' tr :
  Inv st -> past_header st -> Mem.extends (heap st) m' ->
  past_header (mkState (lists st) m' tr).
Proof.
  intros [_ H] HP He i h a Hl Hr. cbn [lists heap] in *.
  apply (HP i h a Hl). eapply reach_extends; eauto.
Qed.

Lemma past_header_pop st k r st' :
  past_header st -> r <> 0 -> pop k st = Ret r st' ->
  past_header st' /\ class_size k <= r mod PAGE_SIZE.
Proof.
  intros HP Hr0 Hpop.
  apply pop_inv in Hpop. destruct Hpop as (nx & Hk & Hh & Hl & ->).
  split.
  - intros i h a Hi Hr. cbn [lists heap] in *.
    destruct (Nat.eq_dec i (Z.to_nat k)) as [->|Hne].
    + rewrite list_lookup_insert_eq in Hi by (eapply lookup_lt_Some; eauto).
      injection Hi as <-. apply (HP _ r a Hh). eapply reach_tail; eauto.
    + rewrite list_lookup_insert_ne in Hi by auto. eauto.
  - rewrite <- (Z2Nat.id k) at 1 by lia. apply (HP _ r r Hh). apply reach_head. exact Hr0.
Qed.

Lemma past_header_refill e k p st st1 :
  Inv st -> past_header st -> 0 <= k <= 7 -> lists st !! Z.to_nat k = Some 0 ->
  mmap_result e = Some p -> valid_mmap (heap st) PAGE_SIZE (Some p) ->
  refill e k (class_size k) st = Ret tt st1 ->
  past_header st1.
Proof.
  intros HI HP Hk Hh He Hv Hfill. pose proof HI as [Hlen H].
  destruct (refill_extends e k st st1 Hk Hh ltac:(rewrite He; exact Hv) Hfill)
    as (Hext & _).
  apply valid_mmap_page in Hv. destruct Hv as (Hp & Hpa & Hpu & _).
  destruct (refill_spec e k p st He Hp Hpa Hpu Hk (lookup_lt_Some _ _ _ Hh))
    as (st1' & Hfill' & Hl1 & _ & _ & _ & _ & Hld).
  assert (st1' = st1) as -> by congruence.
  destruct (blocks_per_page k Hk) as (Hbs & Hn & Hnbs & _). cbv zeta in *.
  set (bs := class_size k) in *. set (n := PAGE_SIZE / bs) in *.
  intros i h a Hi Hr. rewrite Hl1 in Hi.
  destruct (Nat.eq_dec i (Z.to_nat k)) as [->|Hne].
  - rewrite list_lookup_insert_eq in Hi by (eapply lookup_lt_Some; eauto).
    injection Hi as <-. rewrite Z2Nat.id by lia. fold bs.
    destruct (reach_carved _ _ _ _ _ Hld ltac:(lia) Hr) as (j & Hj & ->).
    unfold PAGE_SIZE in *.
    apply Z.mod_divide in Hpa; [|lia]. destruct Hpa as [q ->].
    rewrite Z.add_comm, Z.mod_add by lia. rewrite Z.mod_small by nia. nia.
  - rewrite list_lookup_insert_ne in Hi by auto.
    apply (HP i h a Hi). eapply reach_extends; eauto.
Qed.

(** X17: block 0 of a page, which holds the header, is never on a free list
    and never handed out: the property holds at start, every [xxmalloc] and
    every [xxfree] of a releasable pointer keeps it, and every block
    returned for a small request starts at least one block size into its
    page. *)
Theorem header_block_never_handed_out st :
  Inv st -> past_header st ->
  (forall e s r st',
     0 <= s < 2 ^ 64 ->
     valid_mmap (heap st) (request_len s) (mmap_result e) ->
     xxmalloc e s st = Ret r st' ->
     past_header st' /\
     (s <= 2048 -> exists k, 0 <= k <= 7 /\ round_power_2 s = Some (k + 4) /\
                             class_size k <= r mod PAGE_SIZE)) /\
  (forall ptr st',
     0 <= ptr < 2 ^ 63 -> releasable st ptr ->
     xxfree ptr st = Ret tt st' -> past_header st').
Proof.
  intros HI HP. split.
  - intros e s r st' Hs Hv Hrun. unfold request_len in Hv.
    destruct (Z.ltb_spec 2048 s) as [Hl|Hsm].
    + split; [|lia].
      destruct (xxmalloc_large_inv e s st r st' Hl Hrun) as (_ & He & ->).
      cbv zeta. rewrite He in Hv. destruct Hv as (_ & _ & _ & Hfresh).
      apply past_header_extends; auto. apply MemFacts.extends_map_zero. exact Hfresh.
    + destruct (round_power_2_small s Hsm) as (k & Hk & Hr & _).
      pose proof (class_size_bounds k Hk) as Hbs.
      pose proof Hrun as Hrun'.
      rewrite (xxmalloc_small e s st k) in Hrun' by assumption.
      apply bind_Ret_inv in Hrun'. destruct Hrun' as (h & s1 & Hread & Hrun').
      apply read_list_inv in Hread. destruct Hread as (-> & _ & Hh).
      apply bind_Ret_inv in Hrun'. destruct Hrun' as (u & st1 & Hfill & Hpop).
      assert (past_header st1 /\ r <> 0) as [HP1 Hr0].
      { destruct (Z.eqb_spec h 0) as [->|Hne].
        - destruct u.
          destruct (mmap_result e) as [p|] eqn:He;
            [|rewrite refill_fails in Hfill by assumption; discriminate].
          split; [eapply past_header_refill; eauto|].
          destruct (Inv_refill e k p st st1 HI Hk Hh He Hv Hfill) as (_ & Hh1 & Hok).
          apply pop_inv in Hpop. destruct Hpop as (nx & _ & Hr1 & _).
          assert (r = p + class_size k) as -> by congruence.
          pose proof (node_range _ _ _ Hok). lia.
        - unfold ret in Hfill. assert (st1 = st) as -> by congruence.
          split; [exact HP|].
          apply pop_inv in Hpop. destruct Hpop as (nx & _ & Hr1 & _). congruence. }
      destruct (past_header_pop st1 k r st' HP1 Hr0 Hpop) as [HP' Hpast].
      split; [exact HP'|]. intros _. exists k. auto.
  - intros ptr st' Hptr [Hf|(k & Hk & Htag & Hpast)] Hrun.
    + rewrite (xxfree_foreign st ptr Hf) in Hrun. injection Hrun as <-. exact HP.
    + pose proof (class_size_bounds k Hk) as Hbs.
      destruct (block_start_facts ptr k Hk ltac:(lia) Hpast)
        as (Hp & Hpal & Hp16 & Hpg & Hlo & Hhi). cbv zeta in *.
      pose proof (usable_size_tagged st ptr _ ltac:(lia) Htag) as Hus.
      destruct (xxfree_small_inv st ptr k st' ltac:(lia) Hk Hus Hrun)
        as (cur & Hcur & Hmp & ->). cbv zeta in *.
      set (p := ptr - ptr mod class_size k) in *.
      intros i h a Hi Hr. cbn [lists heap] in *.
      destruct (reach_after_push st k p cur i h a HI Hk Hcur Hp16
                  ltac:(rewrite Hpg; exact Htag) Hi Hr)
        as [[-> ->]|(h0 & Hh0 & Hr0)].
      * rewrite Z2Nat.id by lia.
        apply block_start_past_header; [exact Hk|lia|exact Hpast].
      * exact (HP i h0 a Hh0 Hr0).
Qed.

Lemma header_block_never_handed_out_witness :
  let st1 := after (xxmalloc (env_ok 65536) 1024 init) in
  past_header st1 /\
  (1024 <= 2048 -> exists k, 0 <= k <= 7 /\ round_power_2 1024 = Some (k + 4) /\
                             class_size k <= 66560 mod PAGE_SIZE) /\
  past_header (after (xxfree 66570 st1)).
Proof.
  cbv zeta.
  assert (valid_mmap (heap init) (request_len 1024) (mmap_result (env_ok 65536))) as Hv.
  { apply valid_mmap_init; [reflexivity|reflexivity|vm_compute; discriminate]. }
  destruct (header_block_never_handed_out init Inv_init past_header_init) as [Hm _].
  destruct (Hm (env_ok 65536) 1024 66560 _ ltac:(lia) Hv eq_refl) as [HP1 Hk].
  split; [exact HP1|]. split; [exact Hk|].
  assert (Inv (after (xxmalloc (env_ok 65536) 1024 init))) as HI.
  { apply (Inv_xxmalloc (env_ok 65536) 1024 init 66560); [apply Inv_init|lia|exact Hv|reflexivity]. }
  destruct (header_block_never_handed_out _ HI HP1) as [_ Hf].
  apply (Hf 66570); [lia| |reflexivity].
  right. exists 6. split; [lia|]. split; [split; reflexivity|vm_compute; discriminate].
Defined.

(** ** Pointers into unmapped pages, and blocks that were handed out *)

(** X18: the tag is read before anything is known about the pointer: on a
    non-NULL pointer whose page start is not mapped, [xxfree] and
    [xxmalloc_usable_size] fault instead of ignoring the pointer. *)
Theorem wild_pointer_faults st ptr :
  ptr <> 0 -> Mem.load (heap st) (page_of ptr + OFF_MAGIC) 4 = None ->
  xxfree ptr st = Fault /\ xxmalloc_usable_size ptr st = Fault.
Proof.
  intros Hne Hl. unfold xxfree, xxmalloc_usable_size.
  destruct (Z.eqb_spec ptr 0); [contradiction|]. cbv zeta.
  unfold load_int, bind, load_mem. rewrite Hl. split; reflexivity.
Qed.

Lemma wild_pointer_faults_witness :
  xxfree 12345 init = Fault /\ xxmalloc_usable_size 12345 init = Fault.
Proof. apply wild_pointer_faults; [lia|reflexivity]. Defined.

(** X19: a block that [xxmalloc] has returned for a small request can be
    released: on a well-formed state the request returns a block [r], and
    [xxfree r] on the state it leaves returns too, with [r] back at the head
    of the list of its class and the invariant kept. *)
Theorem allocated_block_can_be_released e s st :
  s <= 2048 -> Inv st ->
  valid_mmap (heap st) PAGE_SIZE (mmap_result e) -> served e s st ->
  exists k r st1 st2,
    0 <= k <= 7 /\ round_power_2 s = Some (k + 4) /\
    xxmalloc e s st = Ret r st1 /\ xxfree r st1 = Ret tt st2 /\
    lists st2 !! Z.to_nat k = Some r /\
    (forall i, i <> Z.to_nat k -> lists st2 !! i = lists st1 !! i).
Proof.
  intros Hs HI Hv Hserved.
  destruct (xxmalloc_small_run e s st Hs HI Hv Hserved)
    as (k & r & st1 & Hk & Hr & _ & _ & Hrun & _ & Hok & HI1).
  destruct Hok as [Hrange Hal Hmp Htag]. destruct HI1 as [Hlen1 _].
  destruct (lookup_lt_is_Some_2 (lists st1) (Z.to_nat k)) as [cur Hcur]; [lia|].
  exists k, r, st1,
    (mkState (<[Z.to_nat k := r]> (lists st1)) (Mem.write (heap st1) r 8 cur) (trace st1)).
  split; [exact Hk|]. split; [exact Hr|]. split; [exact Hrun|].
  split; [|split].
  - rewrite (xxfree_small st1 r k ltac:(lia) Hk (usable_size_tagged st1 r _ Hrange Htag)).
    rewrite Hal, Z.sub_0_r.
    rewrite (bind_Ret _ _ _ _ _ (read_list_lookup k st1 cur ltac:(lia) Hcur)).
    rewrite (bind_Ret _ _ _ tt _
               (write_list_in_bounds k r st1 ltac:(lia) (lookup_lt_Some _ _ _ Hcur))).
    unfold store64. rewrite store_mem_mapped by exact Hmp. reflexivity.
  - cbn [lists]. apply list_lookup_insert_eq. eapply lookup_lt_Some; eauto.
  - intros i Hi. cbn [lists]. apply list_lookup_insert_ne. auto.
Qed.

Lemma allocated_block_can_be_released_witness :
  exists k r st1 st2,
    0 <= k <= 7 /\ round_power_2 100 = Some (k + 4) /\
    xxmalloc (env_ok 65536) 100 init = Ret r st1 /\ xxfree r st1 = Ret tt st2 /\
    lists st2 !! Z.to_nat k = Some r /\
    (forall i, i <> Z.to_nat k -> lists st2 !! i = lists st1 !! i).
Proof.
  apply (allocated_block_can_be_released (env_ok 65536) 100 init);
    [lia|apply Inv_init| |intros _; discriminate].
  apply valid_mmap_init; [reflexivity|reflexivity|vm_compute; discriminate].
Defined.
